(** * Orbit AI: a shallow embedding of the language-tutor client

    The development follows the TypeScript sources:

    - [JS]          the fragments of the JavaScript runtime the code relies on
                    (string trimming, truthiness, URL and query-string parsing);
    - [Types], [Constants]   src/types and src/constants.tsx (the catalogue);
    - [App]         src/App.tsx (language selection and the [?lang=] parameter);
    - [AudioUtils]  the PCM codec of services/audioUtils;
    - [LiveTutor]   src/components/LiveTutor.tsx (the live voice session).

    Conventions.  Audio-clock times and sample amplitudes are exact rationals
    ([Q]); strings are byte strings, so a non-ASCII character is the sequence
    of its UTF-8 bytes.  Every handler of the component is a function from
    the component's state to its next state; what the browser or the remote
    endpoint decides (clock readings, permission prompts, promise settlement)
    is an explicit argument of the handler. *)

From Stdlib Require Import String Ascii List ZArith QArith Qround Qabs Qminmax.
From Stdlib Require Import Lqa Lia DecimalString.
From stdpp Require Import base list strings.
Import ListNotations.
Open Scope string_scope.
Open Scope list_scope.

(* ================================================================== *)
(** ** JavaScript runtime fragments *)

Module JS.

(** Truthiness of a string: the empty string is the only falsy one. *)
Definition truthy (s : string) : bool := negb (s =? "")%string.

(** Truthiness of [string | undefined]. *)
Definition truthyOpt (o : option string) : bool :=
  match o with
  | Some s => truthy s
  | None => false
  end.

(** ECMAScript's WhiteSpace and LineTerminator classes, which
    [String.prototype.trim] strips.  A string is the sequence of its UTF-8
    bytes, so a character of the classes is one, two or three bytes long.

    One byte: TAB, LF, VT, FF, CR and SPACE. *)
Definition isWhiteSpace1 (a : ascii) : bool :=
  let n := nat_of_ascii a in
  ((9 <=? n) && (n <=? 13) || (n =? 32))%nat.

(** Two bytes: U+00A0 NO-BREAK SPACE (C2 A0). *)
Definition isWhiteSpace2 (a b : ascii) : bool :=
  ((nat_of_ascii a =? 194) && (nat_of_ascii b =? 160))%nat.

(** Three bytes: U+1680 (E1 9A 80), U+2000 to U+200A (E2 80 80 to 8A),
    U+2028 and U+2029 (E2 80 A8, A9), U+202F (E2 80 AF), U+205F (E2 81 9F),
    U+3000 (E3 80 80) and U+FEFF (EF BB BF). *)
Definition isWhiteSpace3 (a b c : ascii) : bool :=
  let x := nat_of_ascii a in
  let y := nat_of_ascii b in
  let z := nat_of_ascii c in
  ((x =? 225) && (y =? 154) && (z =? 128)
   || (x =? 226) && (y =? 128)
      && ((128 <=? z) && (z <=? 138) || (z =? 168) || (z =? 169) || (z =? 175))
   || (x =? 226) && (y =? 129) && (z =? 159)
   || (x =? 227) && (y =? 128) && (z =? 128)
   || (x =? 239) && (y =? 187) && (z =? 191))%nat.

(** The string is exactly one character of WhiteSpace or LineTerminator. *)
Definition isWhiteSpace (s : string) : bool :=
  match s with
  | String a EmptyString => isWhiteSpace1 a
  | String a (String b EmptyString) => isWhiteSpace2 a b
  | String a (String b (String c EmptyString)) => isWhiteSpace3 a b c
  | _ => false
  end.

(** [String.prototype.trimStart]. *)
Fixpoint trimStart (s : string) : string :=
  match s with
  | String a r =>
      if isWhiteSpace1 a then trimStart r
      else
        match r with
        | String b r2 =>
            if isWhiteSpace2 a b then trimStart r2
            else
              match r2 with
              | String c r3 => if isWhiteSpace3 a b c then trimStart r3 else s
              | EmptyString => s
              end
        | EmptyString => s
        end
  | EmptyString => EmptyString
  end.

(** [String.prototype.trimEnd]: the tail is trimmed first; the first byte
    is dropped together with what is left of the tail exactly when the two
    make up one white-space character. *)
Fixpoint trimEnd (s : string) : string :=
  match s with
  | String c r =>
      let kept := String c (trimEnd r) in
      if isWhiteSpace kept then EmptyString else kept
  | EmptyString => EmptyString
  end.

(** [String.prototype.trim]. *)
Definition trim (s : string) : string := trimEnd (trimStart s).

(** The longest prefix of [s] without a character satisfying [p]. *)
Fixpoint takeUntil (p : ascii -> bool) (s : string) : string :=
  match s with
  | String c r => if p c then EmptyString else String c (takeUntil p r)
  | EmptyString => EmptyString
  end.

(** What is left of [s] from its first character satisfying [p] on. *)
Fixpoint dropUntil (p : ascii -> bool) (s : string) : string :=
  match s with
  | String c r => if p c then s else dropUntil p r
  | EmptyString => EmptyString
  end.

Fixpoint stringForall (p : ascii -> bool) (s : string) : bool :=
  match s with
  | String c r => p c && stringForall p r
  | EmptyString => true
  end.

(** [s.split(sep)] for a one-character separator. *)
Fixpoint split (sep : ascii) (s : string) : list string :=
  match s with
  | String c r =>
      if Ascii.eqb c sep then EmptyString :: split sep r
      else match split sep r with
           | h :: t => String c h :: t
           | [] => [String c EmptyString]
           end
  | EmptyString => [EmptyString]
  end.

(** *** URLs: the path, query and fragment of a relative reference *)

Definition isQuestion (c : ascii) : bool := Ascii.eqb c "?".
Definition isHash (c : ascii) : bool := Ascii.eqb c "#".
Definition isQueryOrFragment (c : ascii) : bool := isQuestion c || isHash c.

(** A character that neither starts a query nor a fragment. *)
Definition isPathCharacter (c : ascii) : bool := negb (isQueryOrFragment c).

(** [location.pathname] after navigating to the path-absolute URL [u]. *)
Definition urlPathname (u : string) : string := takeUntil isQueryOrFragment u.

(** [location.search] after navigating to [u]: the query with its leading
    question mark, or the empty string when the query is absent or empty. *)
Definition urlSearch (u : string) : string :=
  match dropUntil isQueryOrFragment u with
  | String c r =>
      if isQuestion c then
        match takeUntil isHash r with
        | EmptyString => EmptyString
        | q => String c q
        end
      else EmptyString
  | EmptyString => EmptyString
  end.

(** The URL parser of an http(s) page reads a backslash as a slash. *)
Definition isBackslash (c : ascii) : bool := (nat_of_ascii c =? 92)%nat.
Definition isSlash (c : ascii) : bool := Ascii.eqb c "/" || isBackslash c.

(** The character that ends the authority of a reference. *)
Definition isAuthorityEnd (c : ascii) : bool := isSlash c || isQueryOrFragment c.

Fixpoint dropSlashes (s : string) : string :=
  match s with
  | String c r => if isSlash c then dropSlashes r else s
  | EmptyString => EmptyString
  end.

(** A relative reference as the URL parser of an http(s) page reads it: one
    that begins with two slashes names an authority (further slashes before
    the authority are skipped); any other is read as a path. *)
Inductive Reference :=
| networkPath (authority rest : string)
| pathReference (u : string).

Definition parseReference (u : string) : Reference :=
  match u with
  | String a (String b r) =>
      if isSlash a && isSlash b then
        let r' := dropSlashes r in
        networkPath (takeUntil isAuthorityEnd r') (dropUntil isAuthorityEnd r')
      else pathReference u
  | _ => pathReference u
  end.

(** A path as [location.pathname] of an http(s) page gives it, apart from
    the ones that begin with two slashes: it begins with one slash and has
    no question mark, no hash and no backslash. *)
Definition isSingleSlashPath (p : string) : bool :=
  match p with
  | String a r =>
      Ascii.eqb a "/"
      && match r with
         | String b _ => negb (isSlash b)
         | EmptyString => true
         end
      && stringForall isPathCharacter p
      && stringForall (fun c => negb (isBackslash c)) p
  | EmptyString => false
  end.

(** *** URLSearchParams (application/x-www-form-urlencoded parsing) *)

Definition hexValue (c : ascii) : option nat :=
  let n := nat_of_ascii c in
  if ((48 <=? n) && (n <=? 57))%nat then Some (n - 48)%nat
  else if ((65 <=? n) && (n <=? 70))%nat then Some (n - 55)%nat
  else if ((97 <=? n) && (n <=? 102))%nat then Some (n - 87)%nat
  else None.

(** Percent-decoding of a byte string; a percent sign that is not followed
    by two hexadecimal digits is kept. *)
Fixpoint percentDecode (s : string) : string :=
  match s with
  | String c r =>
      if Ascii.eqb c "%" then
        match r with
        | String h (String l r') =>
            match hexValue h, hexValue l with
            | Some hv, Some lv =>
                String (ascii_of_nat (16 * hv + lv)) (percentDecode r')
            | _, _ => String c (percentDecode r)
            end
        | _ => String c (percentDecode r)
        end
      else String c (percentDecode r)
  | EmptyString => EmptyString
  end.

Fixpoint plusToSpace (s : string) : string :=
  match s with
  | String c r => String (if Ascii.eqb c "+" then " "%char else c) (plusToSpace r)
  | EmptyString => EmptyString
  end.

Definition formDecode (s : string) : string := percentDecode (plusToSpace s).

(** One [name=value] sequence; without an equals sign the value is empty. *)
Definition parsePair (seq : string) : string * string :=
  let isEq := fun c => Ascii.eqb c "=" in
  let name := takeUntil isEq seq in
  let value := match dropUntil isEq seq with
               | String _ v => v
               | EmptyString => EmptyString
               end in
  (formDecode name, formDecode value).

(** [new URLSearchParams(init)]: one leading question mark is dropped, the
    rest is cut at ampersands and empty sequences are skipped. *)
Definition URLSearchParams (init : string) : list (string * string) :=
  let body := match init with
              | String c r => if isQuestion c then r else init
              | EmptyString => EmptyString
              end in
  map parsePair (List.filter truthy (split "&" body)).

(** [params.get(name)]: the value of the first pair called [name], or
    [null]. *)
Fixpoint get (name : string) (params : list (string * string)) : option string :=
  match params with
  | (k, v) :: rest => if (k =? name)%string then Some v else get name rest
  | [] => None
  end.

End JS.

(* ================================================================== *)
(** ** src/types: the language profile *)

Module Types.

Record Language := {
  id : string;
  name : string;
  nativeName : string;
  description : string;
  courseCount : Z;
  image : string;
  color : string;
  buttonColor : string;
  voiceName : string
}.

End Types.

(* ================================================================== *)
(** ** src/constants.tsx: the catalogue *)

Module Constants.

Definition LANGUAGES : list Types.Language := [
  {| Types.id := "it";
     Types.name := "Italiano";
     Types.nativeName := "Italiano";
     Types.description := "Arte & Tradição";
     Types.courseCount := 3;
     Types.image := "https://picsum.photos/id/1040/400/500";
     Types.color := "bg-teal-600";
     Types.buttonColor := "bg-emerald-500";
     Types.voiceName := "Kore" |};
  {| Types.id := "es";
     Types.name := "Espanhol";
     Types.nativeName := "Español";
     Types.description := "Cultura & Conexão";
     Types.courseCount := 0;
     Types.image := "https://picsum.photos/id/1015/400/500";
     Types.color := "bg-orange-600";
     Types.buttonColor := "bg-orange-500";
     Types.voiceName := "Puck" |};
  {| Types.id := "us";
     Types.name := "Inglês";
     Types.nativeName := "English";
     Types.description := "Negócios & Viagens";
     Types.courseCount := 0;
     Types.image := "https://picsum.photos/id/1068/400/500";
     Types.color := "bg-blue-600";
     Types.buttonColor := "bg-indigo-500";
     Types.voiceName := "Fenrir" |};
  {| Types.id := "br";
     Types.name := "Português";
     Types.nativeName := "Português";
     Types.description := "Diversidade & Ritmo";
     Types.courseCount := 0;
     Types.image := "https://picsum.photos/id/1016/400/500";
     Types.color := "bg-green-600";
     Types.buttonColor := "bg-green-500";
     Types.voiceName := "Zephyr" |}
].

End Constants.

(* ================================================================== *)
(** ** src/App.tsx: language selection and the [lang] query parameter *)

Module App.

(** The component's state hook together with the part of [window.location]
    the component reads and, through [history.pushState], writes.  The page
    is served over http or https. *)
Record State := {
  selectedLanguage : option Types.Language;
  pathname : string;
  search : string
}.

(** [history.pushState(_, '', url)].  The URL is resolved against the
    page's own; [ownAuthority] is the browser's answer to whether an
    authority is that of the page.  A reference to another authority, or
    to none, throws ([None]: a SecurityError, nothing is written).  A
    reference read as a path is taken to begin with a slash, as
    [location.pathname] of an http(s) page does, and to be in the form
    the URL parser leaves it in. *)
Definition pushState (ownAuthority : string -> bool) (url : string) (st : State)
  : option State :=
  match JS.parseReference url with
  | JS.networkPath authority rest =>
      if ownAuthority authority then
        Some {| selectedLanguage := selectedLanguage st;
                pathname := match JS.urlPathname rest with
                            | EmptyString => "/"
                            | p => p
                            end;
                search := JS.urlSearch rest |}
      else None
  | JS.pathReference u =>
      Some {| selectedLanguage := selectedLanguage st;
              pathname := JS.urlPathname u;
              search := JS.urlSearch u |}
  end.

Definition setSelectedLanguage (l : option Types.Language) (st : State) : State :=
  {| selectedLanguage := l; pathname := pathname st; search := search st |}.

(** [LANGUAGES.find(l => l.id === langId)]. *)
Definition findLanguage (langId : string) : option Types.Language :=
  find (fun l => (Types.id l =? langId)%string) Constants.LANGUAGES.

(** The mount effect: initialisation from the URL parameters. *)
Definition mountEffect (st : State) : State :=
  let params := JS.URLSearchParams (search st) in
  let langId := JS.get "lang" params in
  match langId with
  | Some v =>
      if JS.truthy v then
        match findLanguage v with
        | Some foundLang => setSelectedLanguage (Some foundLang) st
        | None => st
        end
      else st
  | None => st
  end.

(** The application as first rendered at a given location:
    [useState(null)] followed by the mount effect. *)
Definition init (path query : string) : State :=
  mountEffect {| selectedLanguage := None; pathname := path; search := query |}.

(** The handlers return the state they leave and whether they returned
    normally; [false] is the exception of [pushState], raised after the
    selection was set. *)
Definition handleStartSession (ownAuthority : string -> bool)
    (language : Types.Language) (st : State) : State * bool :=
  let st1 := setSelectedLanguage (Some language) st in
  let newUrl := (pathname st1 ++ "?lang=" ++ Types.id language)%string in
  match pushState ownAuthority newUrl st1 with
  | Some st2 => (st2, true)
  | None => (st1, false)
  end.

Definition handleExit (ownAuthority : string -> bool) (st : State) : State * bool :=
  let st1 := setSelectedLanguage None st in
  match pushState ownAuthority (pathname st1) st1 with
  | Some st2 => (st2, true)
  | None => (st1, false)
  end.

End App.

(* ================================================================== *)
(** ** services/audioUtils: the PCM codec *)

Module AudioUtils.

(** Modelled from the spec: the module services/audioUtils
    ([float32ToB64PCM], [base64ToUint8Array], [decodeAudioData]) is imported
    by the component but is not among the sources.  The definitions of this
    module follow section 4.1 of the specification; samples are exact
    rationals.  The specification names the quantization and its inverse
    scaling without naming the scale factor, so the factor is an argument:
    the two conventions of 16-bit audio are [fullScale] and [halfRange]. *)
Definition halfRange : Z := 32768.

(** Modelled from the spec: the largest value of the representable range,
    the other scale factor in use. *)
Definition fullScale : Z := 32767.

(** Modelled from the spec: rounding to the nearest integer, a half going
    away from zero. *)
Definition roundHalfAwayFromZero (q : Q) : Z :=
  if Qle_bool 0 q then Qfloor (q + (1 # 2)) else (- Qfloor (- q + (1 # 2)))%Z.

(** Modelled from the spec: clamping to the signed 16-bit range. *)
Definition clamp (n : Z) : Z := Z.max (-32768) (Z.min 32767 n).

(** Modelled from the spec: the quantized value of one sample. *)
Definition quantize (scale : Z) (x : Q) : Z :=
  clamp (roundHalfAwayFromZero (x * inject_Z scale)).

(** The byte with value [z mod 256]. *)
Definition byteOfZ (z : Z) : Byte.byte :=
  match Byte.of_N (Z.to_N (z mod 256)) with
  | Some b => b
  | None => Byte.x00
  end.

Definition ZofByte (b : Byte.byte) : Z := Z.of_N (Byte.to_N b).

(** Modelled from the spec: a signed 16-bit integer as two bytes, two's
    complement, low byte first. *)
Definition int16ToBytes (n : Z) : list Byte.byte :=
  let u := (n mod 65536)%Z in [byteOfZ u; byteOfZ (u / 256)].

(** Modelled from the spec: the signed 16-bit integer of two bytes, low byte
    first. *)
Definition int16OfBytes (lo hi : Byte.byte) : Z :=
  let u := (ZofByte lo + 256 * ZofByte hi)%Z in
  if (u <? 32768)%Z then u else (u - 65536)%Z.

(** Modelled from the spec: [encode], the contract of [float32ToB64PCM]
    before the bytes are written as text. *)
Definition encode (scale : Z) (samples : list Q) : list Byte.byte :=
  flat_map (fun x => int16ToBytes (quantize scale x)) samples.

(** Modelled from the spec: the inverse scaling back to amplitude. *)
Definition dequantize (scale : Z) (n : Z) : Q := inject_Z n / inject_Z scale.

(** Modelled from the spec: the samples of a byte sequence; an odd number of
    bytes is a codec error, [None]. *)
Fixpoint decodeSamples (scale : Z) (bytes : list Byte.byte) : option (list Q) :=
  match bytes with
  | [] => Some []
  | lo :: hi :: rest =>
      match decodeSamples scale rest with
      | Some samples => Some (dequantize scale (int16OfBytes lo hi) :: samples)
      | None => None
      end
  | [_] => None
  end.

(** The playable buffer: its samples and its sample rate. *)
Record AudioBuffer := {
  samples : list Q;
  sampleRate : Z
}.

Definition duration (b : AudioBuffer) : Q :=
  inject_Z (Z.of_nat (length (samples b))) / inject_Z (sampleRate b).

(** Modelled from the spec: [decode(bytes, sampleRate)], the contract of
    [decodeAudioData]. *)
Definition decode (scale : Z) (bytes : list Byte.byte) (rate : Z) : option AudioBuffer :=
  match decodeSamples scale bytes with
  | Some xs => Some {| samples := xs; sampleRate := rate |}
  | None => None
  end.

End AudioUtils.

(* ================================================================== *)
(** ** src/components/LiveTutor.tsx: the live voice session *)

Module LiveTutor.

Inductive Role := user | model.

Record Message := {
  id : string;
  role : Role;
  text : string
}.

Inductive Mode := chat | voice.

(** *** The collaborators of the component *)

(** [AudioContext.state]. *)
Inductive AudioContextState := suspended | running | closed.

(** services/audioUtils as the component uses it.  [decodedDuration data] is
    the [duration] of the buffer that
    [await decodeAudioData(base64ToUint8Array(data), ctx, 24000)] yields, and
    [None] when that promise rejects. *)
Record AudioUtils := {
  float32ToB64PCM : list Q -> string;
  decodedDuration : string -> option Q
}.

(** What the browser answers during one user gesture. *)
Record Browser := {
  newContextState : AudioContextState;  (* state of a fresh AudioContext *)
  newInputContextThrows : bool;         (* new AudioContext({sampleRate: 16000}) throws *)
  newOutputContextThrows : bool;        (* new AudioContext({sampleRate: 24000}) throws *)
  resumeSucceeds : bool;                (* AudioContext.resume() fulfils *)
  getUserMediaGranted : bool;           (* getUserMedia({audio}) fulfils *)
  connectThrows : bool                  (* ai.live.connect(...) throws *)
}.

(** The two clocks a message handler reads: [ctx.currentTime] of the output
    context and [Date.now()]. *)
Record Clock := {
  currentTime : Q;
  dateNow : Z
}.

(** The fields of a [LiveServerMessage] the handler reads; [inlineData] is
    [serverContent?.modelTurn?.parts?.[0]?.inlineData?.data]. *)
Record LiveServerMessage := {
  inlineData : option string;
  inputTranscription : option string;
  outputTranscription : option string;
  turnComplete : bool;
  interrupted : bool
}.

(** The constants of one render that the callbacks handed to
    [ai.live.connect] close over.  The callbacks are created once, inside the
    call of [connectToLive], so they keep reading the values of the render in
    which that call was made; refs and state setters are stable and reach the
    current state. *)
Record Render := {
  renderUserText : string;      (* currentLiveUserText of that render *)
  renderModelText : string;     (* currentLiveModelText of that render *)
  renderLanguage : Types.Language
}.

(** The promise returned by [ai.live.connect] and the socket behind it. *)
Inductive PromiseState := pending | fulfilled | rejected.
Inductive SocketState := connecting | opened | closedSocket.

Record Connection := {
  callbacks : Render;
  socket : SocketState;
  promise : PromiseState;
  reactions : list string   (* frames held by [then] reactions not yet run *)
}.

Inductive ContextName := inputContext | outputContext.

(** Calls that leave the component, in the order they are made. *)
Inductive Effect :=
| LiveConnect (k : nat)
| SendRealtimeInput (k : nat) (data : string)
| SessionClose (k : nat)
| GetUserMedia (stream : nat)
| TrackStop (stream : nat)
| ProcessorConnect (processor : nat)
| ProcessorDisconnect (processor : nat)
| ContextClose (c : ContextName)
| SourceStart (source : nat) (when : Q) (duration : Q)
| SourceStop (source : nat).

(** *** The state of the component *)

(** The voice-related [useState] hooks. *)
Record Hooks := {
  mode : Mode;
  isConnected : bool;
  isMicOn : bool;
  voiceStatus : string;
  voiceError : option string;
  voiceMessages : list Message;
  currentLiveUserText : string;
  currentLiveModelText : string
}.

(** The [useRef] cells.  A context ref holds the state of the context it
    points to; [sourcesRef] is the [Set] of scheduled sources in insertion
    order; [liveSessionRef] names the connection whose promise it holds. *)
Record Refs := {
  inputAudioContextRef : option AudioContextState;
  outputAudioContextRef : option AudioContextState;
  nextStartTimeRef : Q;
  sourcesRef : list nat;
  liveSessionRef : option nat;
  scriptProcessorRef : option nat;
  streamRef : option nat;
  isConnectingRef : bool
}.

(** What lives outside the component: the connections made so far, the
    script processors that are wired and firing, the supply of object
    identities and the trace of outgoing calls. *)
Record World := {
  connections : list Connection;
  processors : list nat;
  fresh : nat;
  effects : list Effect
}.

Record State := {
  hooks : Hooks;
  refs : Refs;
  world : World
}.

Definition setMode (v : Mode) (s : State) : State :=
  {| hooks :=
      {| mode := v;
         isConnected := isConnected (hooks s);
         isMicOn := isMicOn (hooks s);
         voiceStatus := voiceStatus (hooks s);
         voiceError := voiceError (hooks s);
         voiceMessages := voiceMessages (hooks s);
         currentLiveUserText := currentLiveUserText (hooks s);
         currentLiveModelText := currentLiveModelText (hooks s) |};
     refs := refs s;
     world := world s |}.

Definition setIsConnected (v : bool) (s : State) : State :=
  {| hooks :=
      {| mode := mode (hooks s);
         isConnected := v;
         isMicOn := isMicOn (hooks s);
         voiceStatus := voiceStatus (hooks s);
         voiceError := voiceError (hooks s);
         voiceMessages := voiceMessages (hooks s);
         currentLiveUserText := currentLiveUserText (hooks s);
         currentLiveModelText := currentLiveModelText (hooks s) |};
     refs := refs s;
     world := world s |}.

Definition setIsMicOn (v : bool) (s : State) : State :=
  {| hooks :=
      {| mode := mode (hooks s);
         isConnected := isConnected (hooks s);
         isMicOn := v;
         voiceStatus := voiceStatus (hooks s);
         voiceError := voiceError (hooks s);
         voiceMessages := voiceMessages (hooks s);
         currentLiveUserText := currentLiveUserText (hooks s);
         currentLiveModelText := currentLiveModelText (hooks s) |};
     refs := refs s;
     world := world s |}.

Definition setVoiceStatus (v : string) (s : State) : State :=
  {| hooks :=
      {| mode := mode (hooks s);
         isConnected := isConnected (hooks s);
         isMicOn := isMicOn (hooks s);
         voiceStatus := v;
         voiceError := voiceError (hooks s);
         voiceMessages := voiceMessages (hooks s);
         currentLiveUserText := currentLiveUserText (hooks s);
         currentLiveModelText := currentLiveModelText (hooks s) |};
     refs := refs s;
     world := world s |}.

Definition setVoiceError (v : option string) (s : State) : State :=
  {| hooks :=
      {| mode := mode (hooks s);
         isConnected := isConnected (hooks s);
         isMicOn := isMicOn (hooks s);
         voiceStatus := voiceStatus (hooks s);
         voiceError := v;
         voiceMessages := voiceMessages (hooks s);
         currentLiveUserText := currentLiveUserText (hooks s);
         currentLiveModelText := currentLiveModelText (hooks s) |};
     refs := refs s;
     world := world s |}.

Definition setVoiceMessages (v : list Message) (s : State) : State :=
  {| hooks :=
      {| mode := mode (hooks s);
         isConnected := isConnected (hooks s);
         isMicOn := isMicOn (hooks s);
         voiceStatus := voiceStatus (hooks s);
         voiceError := voiceError (hooks s);
         voiceMessages := v;
         currentLiveUserText := currentLiveUserText (hooks s);
         currentLiveModelText := currentLiveModelText (hooks s) |};
     refs := refs s;
     world := world s |}.

Definition setCurrentLiveUserText (v : string) (s : State) : State :=
  {| hooks :=
      {| mode := mode (hooks s);
         isConnected := isConnected (hooks s);
         isMicOn := isMicOn (hooks s);
         voiceStatus := voiceStatus (hooks s);
         voiceError := voiceError (hooks s);
         voiceMessages := voiceMessages (hooks s);
         currentLiveUserText := v;
         currentLiveModelText := currentLiveModelText (hooks s) |};
     refs := refs s;
     world := world s |}.

Definition setCurrentLiveModelText (v : string) (s : State) : State :=
  {| hooks :=
      {| mode := mode (hooks s);
         isConnected := isConnected (hooks s);
         isMicOn := isMicOn (hooks s);
         voiceStatus := voiceStatus (hooks s);
         voiceError := voiceError (hooks s);
         voiceMessages := voiceMessages (hooks s);
         currentLiveUserText := currentLiveUserText (hooks s);
         currentLiveModelText := v |};
     refs := refs s;
     world := world s |}.

Definition setInputAudioContextRef (v : option AudioContextState) (s : State) : State :=
  {| refs :=
      {| inputAudioContextRef := v;
         outputAudioContextRef := outputAudioContextRef (refs s);
         nextStartTimeRef := nextStartTimeRef (refs s);
         sourcesRef := sourcesRef (refs s);
         liveSessionRef := liveSessionRef (refs s);
         scriptProcessorRef := scriptProcessorRef (refs s);
         streamRef := streamRef (refs s);
         isConnectingRef := isConnectingRef (refs s) |};
     hooks := hooks s;
     world := world s |}.

Definition setOutputAudioContextRef (v : option AudioContextState) (s : State) : State :=
  {| refs :=
      {| inputAudioContextRef := inputAudioContextRef (refs s);
         outputAudioContextRef := v;
         nextStartTimeRef := nextStartTimeRef (refs s);
         sourcesRef := sourcesRef (refs s);
         liveSessionRef := liveSessionRef (refs s);
         scriptProcessorRef := scriptProcessorRef (refs s);
         streamRef := streamRef (refs s);
         isConnectingRef := isConnectingRef (refs s) |};
     hooks := hooks s;
     world := world s |}.

Definition setNextStartTimeRef (v : Q) (s : State) : State :=
  {| refs :=
      {| inputAudioContextRef := inputAudioContextRef (refs s);
         outputAudioContextRef := outputAudioContextRef (refs s);
         nextStartTimeRef := v;
         sourcesRef := sourcesRef (refs s);
         liveSessionRef := liveSessionRef (refs s);
         scriptProcessorRef := scriptProcessorRef (refs s);
         streamRef := streamRef (refs s);
         isConnectingRef := isConnectingRef (refs s) |};
     hooks := hooks s;
     world := world s |}.

Definition setSourcesRef (v : list nat) (s : State) : State :=
  {| refs :=
      {| inputAudioContextRef := inputAudioContextRef (refs s);
         outputAudioContextRef := outputAudioContextRef (refs s);
         nextStartTimeRef := nextStartTimeRef (refs s);
         sourcesRef := v;
         liveSessionRef := liveSessionRef (refs s);
         scriptProcessorRef := scriptProcessorRef (refs s);
         streamRef := streamRef (refs s);
         isConnectingRef := isConnectingRef (refs s) |};
     hooks := hooks s;
     world := world s |}.

Definition setLiveSessionRef (v : option nat) (s : State) : State :=
  {| refs :=
      {| inputAudioContextRef := inputAudioContextRef (refs s);
         outputAudioContextRef := outputAudioContextRef (refs s);
         nextStartTimeRef := nextStartTimeRef (refs s);
         sourcesRef := sourcesRef (refs s);
         liveSessionRef := v;
         scriptProcessorRef := scriptProcessorRef (refs s);
         streamRef := streamRef (refs s);
         isConnectingRef := isConnectingRef (refs s) |};
     hooks := hooks s;
     world := world s |}.

Definition setScriptProcessorRef (v : option nat) (s : State) : State :=
  {| refs :=
      {| inputAudioContextRef := inputAudioContextRef (refs s);
         outputAudioContextRef := outputAudioContextRef (refs s);
         nextStartTimeRef := nextStartTimeRef (refs s);
         sourcesRef := sourcesRef (refs s);
         liveSessionRef := liveSessionRef (refs s);
         scriptProcessorRef := v;
         streamRef := streamRef (refs s);
         isConnectingRef := isConnectingRef (refs s) |};
     hooks := hooks s;
     world := world s |}.

Definition setStreamRef (v : option nat) (s : State) : State :=
  {| refs :=
      {| inputAudioContextRef := inputAudioContextRef (refs s);
         outputAudioContextRef := outputAudioContextRef (refs s);
         nextStartTimeRef := nextStartTimeRef (refs s);
         sourcesRef := sourcesRef (refs s);
         liveSessionRef := liveSessionRef (refs s);
         scriptProcessorRef := scriptProcessorRef (refs s);
         streamRef := v;
         isConnectingRef := isConnectingRef (refs s) |};
     hooks := hooks s;
     world := world s |}.

Definition setIsConnectingRef (v : bool) (s : State) : State :=
  {| refs :=
      {| inputAudioContextRef := inputAudioContextRef (refs s);
         outputAudioContextRef := outputAudioContextRef (refs s);
         nextStartTimeRef := nextStartTimeRef (refs s);
         sourcesRef := sourcesRef (refs s);
         liveSessionRef := liveSessionRef (refs s);
         scriptProcessorRef := scriptProcessorRef (refs s);
         streamRef := streamRef (refs s);
         isConnectingRef := v |};
     hooks := hooks s;
     world := world s |}.

Definition setConnections (v : list Connection) (s : State) : State :=
  {| world :=
      {| connections := v;
         processors := processors (world s);
         fresh := fresh (world s);
         effects := effects (world s) |};
     hooks := hooks s;
     refs := refs s |}.

Definition setProcessors (v : list nat) (s : State) : State :=
  {| world :=
      {| connections := connections (world s);
         processors := v;
         fresh := fresh (world s);
         effects := effects (world s) |};
     hooks := hooks s;
     refs := refs s |}.

Definition setFresh (v : nat) (s : State) : State :=
  {| world :=
      {| connections := connections (world s);
         processors := processors (world s);
         fresh := v;
         effects := effects (world s) |};
     hooks := hooks s;
     refs := refs s |}.

Definition setEffects (v : list Effect) (s : State) : State :=
  {| world :=
      {| connections := connections (world s);
         processors := processors (world s);
         fresh := fresh (world s);
         effects := v |};
     hooks := hooks s;
     refs := refs s |}.

Definition log (e : Effect) (s : State) : State :=
  setEffects (effects (world s) ++ [e]) s.

(** A new object identity (a stream, a processor or a buffer source). *)
Definition newObject (s : State) : nat * State :=
  (fresh (world s), setFresh (S (fresh (world s))) s).

(** The component as first rendered. *)
Definition initial : State :=
  {| hooks := {| mode := chat;
                 isConnected := false;
                 isMicOn := false;
                 voiceStatus := "Pronto para conectar";
                 voiceError := None;
                 voiceMessages := [];
                 currentLiveUserText := "";
                 currentLiveModelText := "" |};
     refs := {| inputAudioContextRef := None;
                outputAudioContextRef := None;
                nextStartTimeRef := 0;
                sourcesRef := [];
                liveSessionRef := None;
                scriptProcessorRef := None;
                streamRef := None;
                isConnectingRef := false |};
     world := {| connections := [];
                 processors := [];
                 fresh := 0;
                 effects := [] |} |}.

(** *** Audio contexts *)

(** [await ctx.resume()] on the context a ref holds, when it is suspended.
    The boolean is [false] when the promise rejects. *)
Definition resumeIfSuspended (b : Browser) (c : option AudioContextState)
  : option AudioContextState * bool :=
  match c with
  | Some suspended => if resumeSucceeds b then (Some running, true) else (c, false)
  | _ => (c, true)
  end.

(** [if (!ref.current) ref.current = new AudioContext(...)]: what the ref
    holds afterwards, or [None] when the constructor throws. *)
Definition createIfMissing (throws : bool) (b : Browser) (c : option AudioContextState)
  : option (option AudioContextState) :=
  match c with
  | None => if throws then None else Some (Some (newContextState b))
  | Some _ => Some c
  end.

(** [ensureAudioContexts]; the boolean is [false] when it throws: a
    constructor throws, or a [resume()] rejects.  What was assigned before
    the exception stays assigned. *)
Definition ensureAudioContexts (b : Browser) (s : State) : State * bool :=
  match createIfMissing (newInputContextThrows b) b (inputAudioContextRef (refs s)) with
  | None => (s, false)
  | Some i =>
      let s1 := setInputAudioContextRef i s in
      match createIfMissing (newOutputContextThrows b) b (outputAudioContextRef (refs s1)) with
      | None => (s1, false)
      | Some o =>
          let s2 := setOutputAudioContextRef o s1 in
          match resumeIfSuspended b (inputAudioContextRef (refs s2)) with
          | (_, false) => (s2, false)
          | (ci, true) =>
              let s3 := setInputAudioContextRef ci s2 in
              match resumeIfSuspended b (outputAudioContextRef (refs s3)) with
              | (_, false) => (s3, false)
              | (co, true) => (setOutputAudioContextRef co s3, true)
              end
          end
      end
  end.

(** *** Connecting *)

(** [connectToLive] and [toggleMic] are rebuilt by every render and the
    controls call those of the latest one, so the [isConnected] and
    [isMicOn] they read are the current ones.  The callbacks built inside
    [connectToLive] are not rebuilt: they keep the [Render] recorded with
    their connection. *)
Definition connectToLive (b : Browser) (language : Types.Language) (s : State) : State :=
  if isConnectingRef (refs s) || isConnected (hooks s) then s
  else
    match ensureAudioContexts b s with
    | (s1, false) => setVoiceError (Some "Permissão de áudio necessária.") s1
    | (s1, true) =>
        let s2 := setIsConnectingRef true s1 in
        let s3 := setVoiceError None s2 in
        let s4 := setVoiceStatus "Conectando..." s3 in
        if connectThrows b then
          setIsConnectingRef false (setVoiceError (Some "Falha ao iniciar servidor") s4)
        else
          let k := length (connections (world s4)) in
          let sessionPromise :=
            {| callbacks := {| renderUserText := currentLiveUserText (hooks s);
                               renderModelText := currentLiveModelText (hooks s);
                               renderLanguage := language |};
               socket := connecting;
               promise := pending;
               reactions := [] |} in
          let s5 := setConnections (connections (world s4) ++ [sessionPromise])
                                   (log (LiveConnect k) s4) in
          setLiveSessionRef (Some k) s5
    end.

(** *** The callbacks of a connection *)

Definition onopen (r : Render) (s : State) : State :=
  let s1 := setIsConnected true s in
  let s2 := setVoiceStatus "Conectado. Pode falar!" s1 in
  let s3 := setIsConnectingRef false s2 in
  setVoiceMessages
    [ {| id := "start";
         role := model;
         text := ("(Conectado) Olá! Eu sou sua tutora. Podemos falar em "
                  ++ Types.nativeName (renderLanguage r) ++ " ou Português.")%string |} ]
    s3.

(** The audio part of [onmessage].  The boolean is [false] when the awaited
    decoding rejects, in which case the rest of the handler does not run. *)
Definition playAudio (au : AudioUtils) (clock : Clock) (message : LiveServerMessage)
    (s : State) : State * bool :=
  match inlineData message, outputAudioContextRef (refs s) with
  | Some base64Audio, Some _ =>
      if JS.truthy base64Audio then
        let s1 := setNextStartTimeRef
                    (Qmax (nextStartTimeRef (refs s)) (currentTime clock)) s in
        match decodedDuration au base64Audio with
        | None => (s1, false)
        | Some d =>
            let (source, s2) := newObject s1 in
            let s3 := log (SourceStart source (nextStartTimeRef (refs s2)) d) s2 in
            let s4 := setNextStartTimeRef (nextStartTimeRef (refs s3) + d)%Q s3 in
            (setSourcesRef (sourcesRef (refs s4) ++ [source]) s4, true)
        end
      else (s, true)
  | _, _ => (s, true)
  end.

(** The transcription part: deltas are appended through functional updates. *)
Definition handleTranscription (message : LiveServerMessage) (s : State) : State :=
  let s1 := match inputTranscription message with
            | Some inTrans =>
                if JS.truthy inTrans
                then setCurrentLiveUserText (currentLiveUserText (hooks s) ++ inTrans)%string s
                else s
            | None => s
            end in
  match outputTranscription message with
  | Some outTrans =>
      if JS.truthy outTrans
      then setVoiceStatus "Falando..."
             (setCurrentLiveModelText (currentLiveModelText (hooks s1) ++ outTrans)%string s1)
      else s1
  | None => s1
  end.

Definition stamp (clock : Clock) (suffix : string) : string :=
  (NilZero.string_of_int (Z.to_int (dateNow clock)) ++ suffix)%string.

(** The turn-complete part.  The updater of [setVoiceMessages] receives the
    current log, but [currentLiveUserText] and [currentLiveModelText] in its
    body are the constants of the render the callback was created in. *)
Definition commitTurn (clock : Clock) (r : Render) (message : LiveServerMessage)
    (s : State) : State :=
  if turnComplete message then
    let s1 :=
      if JS.truthy (JS.trim (renderUserText r)) then
        setCurrentLiveUserText ""
          (setVoiceMessages
             (voiceMessages (hooks s)
              ++ [ {| id := stamp clock "_u"; role := user; text := renderUserText r |} ]) s)
      else s in
    let s2 :=
      if JS.truthy (JS.trim (renderModelText r)) then
        setCurrentLiveModelText ""
          (setVoiceMessages
             (voiceMessages (hooks s1)
              ++ [ {| id := stamp clock "_m"; role := model; text := renderModelText r |} ]) s1)
      else s1 in
    setVoiceStatus "Sua vez..." s2
  else s.

(** [sourcesRef.current.forEach(s => s.stop())]. *)
Definition stopAll (s : State) : State :=
  fold_left (fun acc source => log (SourceStop source) acc) (sourcesRef (refs s)) s.

Definition handleInterrupted (message : LiveServerMessage) (s : State) : State :=
  if interrupted message then
    let s1 := stopAll s in
    let s2 := setSourcesRef [] s1 in
    let s3 := setNextStartTimeRef 0 s2 in
    setVoiceStatus "Interrompido" s3
  else s.

Definition onmessage (au : AudioUtils) (clock : Clock) (r : Render)
    (message : LiveServerMessage) (s : State) : State :=
  match playAudio au clock message s with
  | (s1, false) => s1
  | (s1, true) =>
      handleInterrupted message
        (commitTurn clock r message (handleTranscription message s1))
  end.

Definition onclose (s : State) : State :=
  let s1 := setIsConnected false s in
  let s2 := setVoiceStatus "Desconectado" s1 in
  let s3 := setIsMicOn false s2 in
  setIsConnectingRef false s3.

Definition onerror (s : State) : State :=
  let s1 := setVoiceError (Some "Erro na conexão") s in
  let s2 := setIsConnected false s1 in
  setIsConnectingRef false s2.

(** The [ended] listener of a buffer source. *)
Definition onended (source : nat) (s : State) : State :=
  setSourcesRef (List.filter (fun x => negb (x =? source)%nat) (sourcesRef (refs s))) s.

(** *** The session promise *)

Definition updateConnection (k : nat) (f : Connection -> Connection) (s : State) : State :=
  setConnections (alter f k (connections (world s))) s.

Definition addReaction (data : string) (c : Connection) : Connection :=
  {| callbacks := callbacks c;
     socket := socket c;
     promise := promise c;
     reactions := reactions c ++ [data] |}.

Definition setSocket (st : SocketState) (c : Connection) : Connection :=
  {| callbacks := callbacks c;
     socket := st;
     promise := promise c;
     reactions := reactions c |}.

Definition setPromise (p : PromiseState) (c : Connection) : Connection :=
  {| callbacks := callbacks c;
     socket := socket c;
     promise := p;
     reactions := [] |}.

(** [promise.then(session => session.sendRealtimeInput({media: ... data}))]
    on the promise of connection [k]: the reaction runs at once on a
    fulfilled promise, is stored on a pending one and never runs on a
    rejected one. *)
Definition thenSend (k : nat) (data : string) (s : State) : State :=
  match connections (world s) !! k with
  | Some c =>
      match promise c with
      | fulfilled => log (SendRealtimeInput k data) s
      | pending => updateConnection k (addReaction data) s
      | rejected => s
      end
  | None => s
  end.

(** The promise of connection [k] settles: on fulfilment the stored
    reactions run in the order they were registered. *)
Definition settle (k : nat) (ok : bool) (s : State) : State :=
  match connections (world s) !! k with
  | Some c =>
      match promise c with
      | pending =>
          if ok then
            fold_left (fun acc data => log (SendRealtimeInput k data) acc)
                      (reactions c)
                      (updateConnection k (setPromise fulfilled) s)
          else updateConnection k (setPromise rejected) s
      | _ => s
      end
  | None => s
  end.

(** *** Capture *)

Definition onaudioprocess (au : AudioUtils) (inputData : list Q) (s : State) : State :=
  let base64PCM := float32ToB64PCM au inputData in
  match liveSessionRef (refs s) with
  | Some k => thenSend k base64PCM s
  | None => s
  end.

(** [toggleMic].  When [ensureAudioContexts] throws, the rejection leaves
    the function.  The audio nodes are taken to be constructible once the
    stream is granted. *)
Definition toggleMic (b : Browser) (language : Types.Language) (s : State) : State :=
  if negb (isConnected (hooks s)) then connectToLive b language s
  else
    match ensureAudioContexts b s with
    | (s1, false) => s1
    | (s1, true) =>
        if isMicOn (hooks s) then
          let s2 := match streamRef (refs s1) with
                    | Some stream => setStreamRef None (log (TrackStop stream) s1)
                    | None => s1
                    end in
          let s3 := match scriptProcessorRef (refs s2) with
                    | Some p =>
                        setScriptProcessorRef None
                          (setProcessors
                             (List.filter (fun x => negb (x =? p)%nat) (processors (world s2)))
                             (log (ProcessorDisconnect p) s2))
                    | None => s2
                    end in
          setVoiceStatus "Microfone pausado" (setIsMicOn false s3)
        else if getUserMediaGranted b then
          let (stream, s2) := newObject s1 in
          let s3 := setStreamRef (Some stream) (log (GetUserMedia stream) s2) in
          match inputAudioContextRef (refs s3) with
          | None => s3
          | Some _ =>
              let (processor, s4) := newObject s3 in
              let s5 := setProcessors (processors (world s4) ++ [processor])
                                      (log (ProcessorConnect processor) s4) in
              let s6 := setScriptProcessorRef (Some processor) s5 in
              setVoiceStatus "Ouvindo..." (setIsMicOn true s6)
          end
        else setVoiceError (Some "Sem acesso ao microfone") s1
    end.

(** *** Teardown *)

(** [ctx.close()]: a closed input context no longer drives any processor. *)
Definition closeContext (c : ContextName) (s : State) : State :=
  let s1 := log (ContextClose c) s in
  match c with
  | inputContext => setProcessors [] s1
  | outputContext => s1
  end.

Definition disconnectVoice (s : State) : State :=
  let s1 := match streamRef (refs s) with
            | Some stream => log (TrackStop stream) s
            | None => s
            end in
  let s2 := match inputAudioContextRef (refs s1) with
            | Some _ => closeContext inputContext s1
            | None => s1
            end in
  let s3 := match outputAudioContextRef (refs s2) with
            | Some _ => closeContext outputContext s2
            | None => s2
            end in
  let s4 := setInputAudioContextRef None s3 in
  let s5 := setOutputAudioContextRef None s4 in
  let s6 := setIsConnected false s5 in
  let s7 := setIsMicOn false s6 in
  let s8 := setVoiceMessages [] s7 in
  let s9 := setCurrentLiveUserText "" s8 in
  setCurrentLiveModelText "" s9.

(** The cleanup of the unmount effect: like teardown it stops the tracks and
    closes the contexts, but it resets neither refs nor hooks. *)
Definition unmountCleanup (s : State) : State :=
  let s1 := match streamRef (refs s) with
            | Some stream => log (TrackStop stream) s
            | None => s
            end in
  let s2 := match inputAudioContextRef (refs s1) with
            | Some _ => closeContext inputContext s1
            | None => s1
            end in
  match outputAudioContextRef (refs s2) with
  | Some _ => closeContext outputContext s2
  | None => s2
  end.

(** The close that teardown asks of the context a ref holds, if any. *)
Definition closes (c : ContextName) (ref : option AudioContextState) : list Effect :=
  match ref with
  | Some _ => [ContextClose c]
  | None => []
  end.

Definition switchMode (newMode : Mode) (s : State) : State :=
  let s1 := match newMode with
            | chat => disconnectVoice s
            | voice => s
            end in
  setMode newMode s1.

(** *** The component driven by its environment *)

Inductive Event :=
| Click (b : Browser)                       (* the main button or the avatar *)
| SwitchMode (m : Mode)                     (* the mode toggle *)
| SocketOpen (k : nat)
| SocketMessage (k : nat) (clock : Clock) (message : LiveServerMessage)
| SocketClose (k : nat)
| SocketError (k : nat)
| Settle (k : nat) (ok : bool)
| AudioProcess (processor : nat) (inputData : list Q)
| Ended (source : nat).

(** One event.  A socket event runs the callback of its connection with the
    render that callback closes over; the voice controls react only while
    the voice view is shown; a processor fires only while it is wired. *)
Definition step (au : AudioUtils) (language : Types.Language) (s : State) (e : Event) : State :=
  match e with
  | Click b =>
      match mode (hooks s) with
      | voice => toggleMic b language s
      | chat => s
      end
  | SwitchMode m => switchMode m s
  | SocketOpen k =>
      match connections (world s) !! k with
      | Some c => onopen (callbacks c) (updateConnection k (setSocket opened) s)
      | None => s
      end
  | SocketMessage k clock message =>
      match connections (world s) !! k with
      | Some c => onmessage au clock (callbacks c) message s
      | None => s
      end
  | SocketClose k =>
      match connections (world s) !! k with
      | Some c => onclose (updateConnection k (setSocket closedSocket) s)
      | None => s
      end
  | SocketError k =>
      match connections (world s) !! k with
      | Some c => onerror (updateConnection k (setSocket closedSocket) s)
      | None => s
      end
  | Settle k ok => settle k ok s
  | AudioProcess p inputData =>
      if existsb (Nat.eqb p) (processors (world s))
      then onaudioprocess au inputData s
      else s
  | Ended source => onended source s
  end.

Definition run (au : AudioUtils) (language : Types.Language) (s : State) (events : list Event) : State :=
  fold_left (step au language) events s.

(** The messages of one connection, handled in the order they arrive. *)
Definition deliver (au : AudioUtils) (r : Render) (s : State)
    (messages : list (Clock * LiveServerMessage)) : State :=
  fold_left (fun acc cm => onmessage au (fst cm) r (snd cm) acc) messages s.

(** *** The events of the specification as server messages *)

Definition emptyMessage : LiveServerMessage :=
  {| inlineData := None;
     inputTranscription := None;
     outputTranscription := None;
     turnComplete := false;
     interrupted := false |}.

Definition AudioChunk (data : string) : LiveServerMessage :=
  {| inlineData := Some data;
     inputTranscription := None;
     outputTranscription := None;
     turnComplete := false;
     interrupted := false |}.

Definition InputTranscriptDelta (t : string) : LiveServerMessage :=
  {| inlineData := None;
     inputTranscription := Some t;
     outputTranscription := None;
     turnComplete := false;
     interrupted := false |}.

Definition OutputTranscriptDelta (t : string) : LiveServerMessage :=
  {| inlineData := None;
     inputTranscription := None;
     outputTranscription := Some t;
     turnComplete := false;
     interrupted := false |}.

Definition TurnComplete : LiveServerMessage :=
  {| inlineData := None;
     inputTranscription := None;
     outputTranscription := None;
     turnComplete := true;
     interrupted := false |}.

Definition Interrupted : LiveServerMessage :=
  {| inlineData := None;
     inputTranscription := None;
     outputTranscription := None;
     turnComplete := false;
     interrupted := true |}.

(** *** What the view derives from the state *)

(** [const isAiSpeaking = voiceStatus === 'Falando...']. *)
Definition isAiSpeaking (s : State) : bool :=
  (voiceStatus (hooks s) =? "Falando...")%string.

(** The caption of the main button. *)
Definition mainButtonLabel (s : State) : string :=
  if isAiSpeaking s then "Ouvindo IA..."
  else if isMicOn (hooks s) then "Silenciar"
  else if isConnected (hooks s) then "Falar"
  else "Conectar Voz".

(** Outgoing calls that neither close a session nor start or stop a buffer
    source. *)
Definition isSessionClose (e : Effect) : bool :=
  match e with
  | SessionClose _ => true
  | _ => false
  end.

Definition isSourceEffect (e : Effect) : bool :=
  match e with
  | SourceStart _ _ _ | SourceStop _ => true
  | _ => false
  end.

(** The set of scheduled sources is well formed: it holds no source twice,
    every member has been created and started, and a source that has been
    stopped is not a member; such a source had been started, and it has
    been stopped once. *)
Definition stoppedSources (trace : list Effect) : list nat :=
  flat_map (fun e => match e with
                     | SourceStop x => [x]
                     | _ => []
                     end) trace.

Definition sourcesWellFormed (s : State) : Prop :=
  NoDup (sourcesRef (refs s)) /\
  (forall x, In x (sourcesRef (refs s)) -> (x < fresh (world s))%nat) /\
  (forall x, In (SourceStop x) (effects (world s)) ->
             (x < fresh (world s))%nat /\ ~ In x (sourcesRef (refs s))) /\
  (forall x, In x (sourcesRef (refs s)) ->
             exists t d, In (SourceStart x t d) (effects (world s))) /\
  (forall x, In (SourceStop x) (effects (world s)) ->
             exists t d, In (SourceStart x t d) (effects (world s))) /\
  NoDup (stoppedSources (effects (world s))).

(** The schedule is sound: the cursor is not negative, no source has been
    started at a negative time or with a negative duration, and every
    source of the set ends at or before the cursor. *)
Definition scheduleSound (s : State) : Prop :=
  (0 <= nextStartTimeRef (refs s))%Q /\
  (forall x t d, In (SourceStart x t d) (effects (world s)) ->
                 (x < fresh (world s))%nat /\ (0 <= t)%Q /\ (0 <= d)%Q) /\
  (forall x t d, In x (sourcesRef (refs s)) ->
                 In (SourceStart x t d) (effects (world s)) ->
                 (t + d <= nextStartTimeRef (refs s))%Q).

(** A transition that leaves the cursor and the set of sources alone, takes
    object identities only upwards and extends the trace by calls that
    neither close a session nor concern a source. *)
Definition quiet (s s' : State) : Prop :=
  nextStartTimeRef (refs s') = nextStartTimeRef (refs s) /\
  sourcesRef (refs s') = sourcesRef (refs s) /\
  (fresh (world s) <= fresh (world s'))%nat /\
  exists added,
    effects (world s') = effects (world s) ++ added /\
    Forall (fun e => isSourceEffect e = false /\ isSessionClose e = false) added.

(** *** The guard of [connectToLive] *)





End LiveTutor.

(* ================================================================== *)
(** ** src/components/LiveTutor.tsx: the text chat *)

Module Chat.

Import LiveTutor.

(** How [chatSessionRef.current.sendMessage] settles: with a response whose
    [text] may be undefined, or by rejecting. *)
Inductive Reply := Answered (text : option string) | Failed.

(** The chat hooks, the chat session ref, and outside the component the
    number of sessions created so far and the texts handed to them. *)
Record State := {
  messages : list Message;
  inputText : string;
  isTyping : bool;
  chatSessionRef : option nat;
  created : nat;
  outbox : list (nat * string)
}.

Definition initial : State :=
  {| messages := [];
     inputText := "";
     isTyping := false;
     chatSessionRef := None;
     created := 0;
     outbox := [] |}.

Definition initChat (language : Types.Language) (c : State) : State :=
  {| messages :=
       [ {| id := "init";
            role := model;
            text := ("Olá! Sou seu professor de " ++ Types.nativeName language
                     ++ ". Vamos praticar a escrita?")%string |} ];
     inputText := inputText c;
     isTyping := isTyping c;
     chatSessionRef := Some (created c);
     created := S (created c);
     outbox := outbox c |}.

(** The effect that initialises the chat when the chat view is entered. *)
Definition enterChatEffect (m : Mode) (language : Types.Language) (c : State) : State :=
  match m with
  | chat => if (length (messages c) =? 0)%nat then initChat language c else c
  | voice => c
  end.

(** The [onChange] of the input field. *)
Definition setInputText (t : string) (c : State) : State :=
  {| messages := messages c;
     inputText := t;
     isTyping := isTyping c;
     chatSessionRef := chatSessionRef c;
     created := created c;
     outbox := outbox c |}.

Definition dateString (now : Z) : string := NilZero.string_of_int (Z.to_int now).

(** [handleSendMessage] up to its [await].  The boolean tells whether a
    request is in flight; it is [false] when the guard returned. *)
Definition beginSend (now : Z) (c : State) : State * bool :=
  if negb (JS.truthy (JS.trim (inputText c))) then (c, false)
  else
    match chatSessionRef c with
    | None => (c, false)
    | Some session =>
        let userText := inputText c in
        ({| messages := messages c
                        ++ [ {| id := dateString now; role := user; text := userText |} ];
            inputText := "";
            isTyping := true;
            chatSessionRef := chatSessionRef c;
            created := created c;
            outbox := outbox c ++ [(session, userText)] |}, true)
    end.

(** [responseText || "..."] and the text of the [catch] branch. *)
Definition replyText (reply : Reply) : string :=
  match reply with
  | Answered (Some responseText) =>
      if JS.truthy responseText then responseText else "Não entendi, pode repetir?"
  | Answered None => "Não entendi, pode repetir?"
  | Failed => "Tive um problema de conexão. Tente novamente."
  end.

Definition replyId (now : Z) (reply : Reply) : string :=
  match reply with
  | Answered _ => dateString (now + 1)
  | Failed => dateString now
  end.

(** [handleSendMessage] from the settlement of the request on. *)
Definition endSend (now : Z) (reply : Reply) (c : State) : State :=
  {| messages := messages c
                 ++ [ {| id := replyId now reply; role := model; text := replyText reply |} ];
     inputText := inputText c;
     isTyping := false;
     chatSessionRef := chatSessionRef c;
     created := created c;
     outbox := outbox c |}.

(** [handleSendMessage] with nothing happening while the request is in
    flight (the input field and the button are disabled meanwhile). *)
Definition handleSendMessage (sentAt repliedAt : Z) (reply : Reply) (c : State) : State :=
  match beginSend sentAt c with
  | (c1, true) => endSend repliedAt reply c1
  | (c1, false) => c1
  end.

(** [handleKeyPress], with the same convention as [beginSend]. *)
Definition handleKeyPress (key : string) (shiftKey : bool) (now : Z) (c : State)
  : State * bool :=
  if (key =? "Enter")%string && negb shiftKey then beginSend now c else (c, false).

(** The chat view driven by its user: the effect after a render in mode
    [m], typing, the send button, and a key pressed in the input field. *)
Inductive Event :=
| Rendered (m : Mode)
| Typed (t : string)
| SendPressed (sentAt repliedAt : Z) (reply : Reply)
| KeyPressed (key : string) (shiftKey : bool) (sentAt repliedAt : Z) (reply : Reply).

Definition step (language : Types.Language) (c : State) (e : Event) : State :=
  match e with
  | Rendered m => enterChatEffect m language c
  | Typed t => setInputText t c
  | SendPressed sentAt repliedAt reply => handleSendMessage sentAt repliedAt reply c
  | KeyPressed key shiftKey sentAt repliedAt reply =>
      match handleKeyPress key shiftKey sentAt c with
      | (c1, true) => endSend repliedAt reply c1
      | (c1, false) => c1
      end
  end.

Definition run (language : Types.Language) (c : State) (events : list Event) : State :=
  fold_left (step language) events c.

End Chat.

(* ================================================================== *)
(** ** A concrete environment for examples *)

Module Scenario.

Import LiveTutor.

(** A stand-in for services/audioUtils: a frame is written as the decimal
    quantized values of its samples, and a chunk of [n] base64 characters
    lasts [n/64000] seconds (three bytes for four characters, two bytes a
    sample, 24000 samples a second). *)
Definition au : AudioUtils :=
  {| float32ToB64PCM := fun samples =>
       String.concat ","
         (map (fun x => NilZero.string_of_int
                         (Z.to_int (AudioUtils.quantize AudioUtils.halfRange x))) samples);
     decodedDuration := fun data =>
       Some (inject_Z (Z.of_nat (String.length data)) / 64000)%Q |}.

Definition granting : Browser :=
  {| newContextState := suspended;
     newInputContextThrows := false;
     newOutputContextThrows := false;
     resumeSucceeds := true;
     getUserMediaGranted := true;
     connectThrows := false |}.

Definition denying : Browser :=
  {| newContextState := suspended;
     newInputContextThrows := false;
     newOutputContextThrows := false;
     resumeSucceeds := true;
     getUserMediaGranted := false;
     connectThrows := false |}.

(** A browser without support for the sample rate of the microphone
    context, and one that gives no output context. *)
Definition withoutInputContext : Browser :=
  {| newContextState := suspended;
     newInputContextThrows := true;
     newOutputContextThrows := false;
     resumeSucceeds := true;
     getUserMediaGranted := true;
     connectThrows := false |}.

Definition withoutOutputContext : Browser :=
  {| newContextState := suspended;
     newInputContextThrows := false;
     newOutputContextThrows := true;
     resumeSucceeds := true;
     getUserMediaGranted := true;
     connectThrows := false |}.

(** The page is served from [orbit.example]. *)
Definition ownAuthority (authority : string) : bool :=
  (authority =? "orbit.example")%string.

(** White space outside ASCII, as UTF-8: U+00A0, U+3000, U+FEFF, U+2028. *)
Definition noBreakSpace : string :=
  String (ascii_of_nat 194) (String (ascii_of_nat 160) EmptyString).

Definition ideographicSpace : string :=
  String (ascii_of_nat 227) (String (ascii_of_nat 128) (String (ascii_of_nat 128) EmptyString)).

Definition byteOrderMark : string :=
  String (ascii_of_nat 239) (String (ascii_of_nat 187) (String (ascii_of_nat 191) EmptyString)).

Definition lineSeparator : string :=
  String (ascii_of_nat 226) (String (ascii_of_nat 128) (String (ascii_of_nat 168) EmptyString)).

Definition italian : Types.Language :=
  {| Types.id := "it";
     Types.name := "Italiano";
     Types.nativeName := "Italiano";
     Types.description := "Arte & Tradição";
     Types.courseCount := 3;
     Types.image := "https://picsum.photos/id/1040/400/500";
     Types.color := "bg-teal-600";
     Types.buttonColor := "bg-emerald-500";
     Types.voiceName := "Kore" |}.

Definition at_ (t : Q) : Clock := {| currentTime := t; dateNow := 1700000000000 |}.

(** The render the callbacks of the first connection close over. *)
Definition firstRender : Render :=
  {| renderUserText := ""; renderModelText := ""; renderLanguage := italian |}.

(** The user opens the voice view and presses the button; the socket opens
    and the session promise is fulfilled. *)
Definition connect : list Event :=
  [SwitchMode voice; Click granting; SocketOpen 0; Settle 0 true].

Definition connected : State := run au italian initial connect.

(** Then the microphone is switched on. *)
Definition listening : State := run au italian connected [Click granting].

(** Three chunks have been scheduled: the second arrives while the first
    still plays, the third after a pause. *)
Definition speaking : State :=
  run au italian connected
    [SocketMessage 0 (at_ 1) (AudioChunk "AAAAAAAAAAAAAAAA");
     SocketMessage 0 (at_ (10001 # 10000)) (AudioChunk "AAAAAAAA");
     SocketMessage 0 (at_ 5) (AudioChunk "AAAAAAAAAAAAAAAA")].

(** The remote end closes the socket while the microphone is on, and the
    user presses the button again: a second connection is being made. *)
Definition reconnecting : State :=
  run au italian listening [SocketClose 0; Click granting].

End Scenario.

(* ================================================================== *)
(** * Properties *)

(** ** The [lang] parameter (src/App.tsx, src/constants.tsx) *)

(** Sanity checks of the runtime fragments. *)
Example trim_examples :
  JS.trim "  Bon jour " = "Bon jour" /\ JS.trim "   " = "" /\ JS.truthy (JS.trim "") = false.
Proof. repeat split. Qed.

(** White space outside ASCII is trimmed as well: a no-break space, an
    ideographic space and a byte-order mark around a word, and a line
    separator alone. *)
Example trim_unicode_examples :
  JS.trim (Scenario.noBreakSpace ++ Scenario.ideographicSpace ++ "ciao"
           ++ Scenario.byteOrderMark ++ " " ++ Scenario.noBreakSpace)%string = "ciao" /\
  JS.trim Scenario.noBreakSpace = "" /\
  JS.trim Scenario.lineSeparator = "" /\
  JS.trim ("a" ++ Scenario.noBreakSpace ++ "b")%string
    = ("a" ++ Scenario.noBreakSpace ++ "b")%string /\
  JS.trim " perché " = "perché".
Proof. repeat split. Qed.

Example urlSearch_examples :
  JS.urlSearch "/orbit/?lang=it#top" = "?lang=it" /\
  JS.urlSearch "/orbit/?" = "" /\
  JS.urlSearch "/orbit/#a?b" = "".
Proof. repeat split. Qed.

Example URLSearchParams_examples :
  JS.get "lang" (JS.URLSearchParams "?a=1&&lang=%69t&lang=es") = Some "it" /\
  JS.get "lang" (JS.URLSearchParams "?a=1") = None /\
  JS.get "q" (JS.URLSearchParams "q=a+b%2") = Some "a b%2".
Proof. repeat split. Qed.

Section LangParameter.

(** Case analysis on membership in the four-entry catalogue. *)
Ltac each_language H :=
  simpl in H; destruct H as [<-|[<-|[<-|[<-|[]]]]].

Lemma urlPathname_query (p q : string) :
  JS.stringForall JS.isPathCharacter p = true ->
  JS.urlPathname (p ++ String "?" q)%string = p.
Proof.
  unfold JS.urlPathname.
  induction p as [|c p IH]; simpl; intros H.
  - reflexivity.
  - apply andb_prop in H as [Hc Hp]. unfold JS.isPathCharacter in Hc.
    apply negb_true_iff in Hc. rewrite Hc. f_equal. auto.
Qed.

Lemma dropUntil_query (p q : string) :
  JS.stringForall JS.isPathCharacter p = true ->
  JS.dropUntil JS.isQueryOrFragment (p ++ String "?" q)%string = String "?" q.
Proof.
  induction p as [|c p IH]; simpl; intros H.
  - reflexivity.
  - apply andb_prop in H as [Hc Hp]. unfold JS.isPathCharacter in Hc.
    apply negb_true_iff in Hc. rewrite Hc. auto.
Qed.

Lemma urlSearch_query (p q : string) :
  JS.stringForall JS.isPathCharacter p = true ->
  JS.urlSearch (p ++ String "?" q)%string =
  match JS.takeUntil JS.isHash q with
  | EmptyString => EmptyString
  | q' => String "?" q'
  end.
Proof.
  intros H. unfold JS.urlSearch. rewrite dropUntil_query by assumption.
  reflexivity.
Qed.

Lemma findLanguage_In (v : string) (l : Types.Language) :
  App.findLanguage v = Some l -> In l Constants.LANGUAGES /\ Types.id l = v.
Proof.
  unfold App.findLanguage. intros H.
  apply find_some in H as [Hin Heq].
  split; [assumption | now apply String.eqb_eq].
Qed.

Lemma findLanguage_unknown (v : string) :
  (forall l, In l Constants.LANGUAGES -> Types.id l <> v) ->
  App.findLanguage v = None.
Proof.
  intros H. destruct (App.findLanguage v) as [l|] eqn:E; [|reflexivity].
  apply findLanguage_In in E as [Hin Hid]. exfalso. exact (H l Hin Hid).
Qed.

Lemma isSingleSlashPath_characters (p : string) :
  JS.isSingleSlashPath p = true -> JS.stringForall JS.isPathCharacter p = true.
Proof.
  destruct p as [|a r]; [discriminate|].
  unfold JS.isSingleSlashPath. intros H.
  apply andb_prop in H as [H _]. apply andb_prop in H as [_ H]. exact H.
Qed.

(** A path that begins with one slash, followed by nothing or by a query,
    is read as a path, so that [pushState] accepts it. *)
Lemma parseReference_single_slash (p q : string) :
  JS.isSingleSlashPath p = true ->
  match q with String c _ => JS.isSlash c = false | EmptyString => True end ->
  JS.parseReference (p ++ q)%string = JS.pathReference (p ++ q)%string.
Proof.
  intros Hp Hq.
  destruct p as [|a [|b r]]; [discriminate| |].
  - destruct q as [|c q]; [reflexivity|].
    simpl. rewrite Hq, andb_false_r. reflexivity.
  - unfold JS.isSingleSlashPath in Hp.
    apply andb_prop in Hp as [Hp _]. apply andb_prop in Hp as [Hp _].
    apply andb_prop in Hp as [_ Hb]. apply negb_true_iff in Hb.
    simpl. rewrite Hb, andb_false_r. reflexivity.
Qed.

Lemma pushState_query (ownAuthority : string -> bool) (p q : string) (st : App.State) :
  JS.isSingleSlashPath p = true ->
  App.pushState ownAuthority (p ++ String "?" q)%string st =
  Some {| App.selectedLanguage := App.selectedLanguage st;
          App.pathname := p;
          App.search := match JS.takeUntil JS.isHash q with
                        | EmptyString => EmptyString
                        | q' => String "?" q'
                        end |}.
Proof.
  intros Hp. unfold App.pushState.
  rewrite parseReference_single_slash by (assumption || reflexivity).
  apply isSingleSlashPath_characters in Hp.
  rewrite urlPathname_query, urlSearch_query by assumption.
  reflexivity.
Qed.

Lemma handleStartSession_single_slash (ownAuthority : string -> bool)
    (l : Types.Language) (st : App.State) :
  JS.isSingleSlashPath (App.pathname st) = true ->
  App.handleStartSession ownAuthority l st =
  ({| App.selectedLanguage := Some l;
      App.pathname := App.pathname st;
      App.search := match JS.takeUntil JS.isHash ("lang=" ++ Types.id l)%string with
                    | EmptyString => EmptyString
                    | q' => String "?" q'
                    end |}, true).
Proof.
  intros Hp. unfold App.handleStartSession.
  change (App.pathname (App.setSelectedLanguage (Some l) st)) with (App.pathname st).
  change (App.pathname st ++ "?lang=" ++ Types.id l)%string
    with (App.pathname st ++ String "?" ("lang=" ++ Types.id l))%string.
  rewrite pushState_query by assumption. reflexivity.
Qed.

(** C10.  At a location whose path begins with a single slash, selecting a
    profile of the catalogue returns normally and writes [?lang=<id>] as the
    query of the location, and the application started at that location
    selects the same profile again: looking an id up in the catalogue undoes
    taking the id of a profile, the ids being pairwise distinct.  A [lang]
    value that is the id of no profile, and a location without a [lang]
    parameter, select nothing. *)
Theorem lang_parameter_round_trip :
  forall (ownAuthority : string -> bool) (l : Types.Language) (st : App.State),
    In l Constants.LANGUAGES ->
    JS.isSingleSlashPath (App.pathname st) = true ->
    let st' := fst (App.handleStartSession ownAuthority l st) in
    snd (App.handleStartSession ownAuthority l st) = true /\
    App.selectedLanguage st' = Some l /\
    App.pathname st' = App.pathname st /\
    App.search st' = ("?lang=" ++ Types.id l)%string /\
    JS.get "lang" (JS.URLSearchParams (App.search st')) = Some (Types.id l) /\
    App.findLanguage (Types.id l) = Some l /\
    App.selectedLanguage (App.init (App.pathname st') (App.search st')) = Some l /\
    NoDup (map Types.id Constants.LANGUAGES) /\
    (forall path query,
        match JS.get "lang" (JS.URLSearchParams query) with
        | Some v => forall l', In l' Constants.LANGUAGES -> Types.id l' <> v
        | None => True
        end ->
        App.selectedLanguage (App.init path query) = None).
Proof.
  intros own l st Hin Hpath st'.
  unfold st'. rewrite handleStartSession_single_slash by assumption.
  cbn [fst snd App.selectedLanguage App.pathname App.search].
  assert (Hs : match JS.takeUntil JS.isHash ("lang=" ++ Types.id l)%string with
               | EmptyString => EmptyString
               | q' => String "?" q'
               end = ("?lang=" ++ Types.id l)%string)
    by (each_language Hin; reflexivity).
  rewrite Hs.
  split; [reflexivity|]. split; [reflexivity|]. split; [reflexivity|].
  split; [reflexivity|].
  repeat split.
  - each_language Hin; reflexivity.
  - each_language Hin; reflexivity.
  - unfold App.init, App.mountEffect; simpl App.search.
    each_language Hin; reflexivity.
  - simpl. repeat (apply NoDup_cons_2; [rewrite list_elem_of_In; simpl; intuition discriminate|]).
    apply NoDup_nil_2.
  - intros path query H. unfold App.init, App.mountEffect; simpl App.search.
    destruct (JS.get "lang" (JS.URLSearchParams query)) as [v|]; [|reflexivity].
    destruct (JS.truthy v); [|reflexivity].
    rewrite (findLanguage_unknown v H). reflexivity.
Qed.

End LangParameter.

Lemma lang_parameter_round_trip_witness :
  let l := {| Types.id := "es";
              Types.name := "Espanhol";
              Types.nativeName := "Español";
              Types.description := "Cultura & Conexão";
              Types.courseCount := 0;
              Types.image := "https://picsum.photos/id/1015/400/500";
              Types.color := "bg-orange-600";
              Types.buttonColor := "bg-orange-500";
              Types.voiceName := "Puck" |} in
  let st := {| App.selectedLanguage := None; App.pathname := "/orbit/"; App.search := "" |} in
  App.search (fst (App.handleStartSession Scenario.ownAuthority l st)) = "?lang=es" /\
  App.selectedLanguage (App.init "/orbit/" "?lang=es") = Some l /\
  App.selectedLanguage (App.init "/orbit/" "?lang=fr") = None.
Proof.
  intros l st.
  assert (Hin : In l Constants.LANGUAGES) by (simpl; auto).
  assert (Hpath : JS.isSingleSlashPath (App.pathname st) = true)
    by reflexivity.
  destruct (lang_parameter_round_trip Scenario.ownAuthority l st Hin Hpath)
    as (_ & _ & _ & Hs & _ & _ & Hi & _ & Hu).
  split; [exact Hs|]. split; [exact Hi|].
  apply Hu. simpl. intros l' Hl'.
  destruct Hl' as [<-|[<-|[<-|[<-|[]]]]]; discriminate.
Defined.

(** Where the path of the location begins with two slashes, the URL the
    handlers build names another authority: [pushState] throws, the
    selection made before it stays, and the query is not written.  The
    same reference to the page's own authority is accepted and read as a
    path on it. *)
Example pushState_other_authority :
  let st := {| App.selectedLanguage := None; App.pathname := "//evil/x"; App.search := "" |} in
  JS.parseReference "//evil/x?lang=it" = JS.networkPath "evil" "/x?lang=it" /\
  JS.parseReference (String "/" (String (ascii_of_nat 92) "evil/x?lang=it"))
    = JS.networkPath "evil" "/x?lang=it" /\
  App.handleStartSession Scenario.ownAuthority Scenario.italian st =
    ({| App.selectedLanguage := Some Scenario.italian;
        App.pathname := "//evil/x"; App.search := "" |}, false) /\
  App.handleExit Scenario.ownAuthority
    {| App.selectedLanguage := Some Scenario.italian;
       App.pathname := "//evil/x"; App.search := "?lang=it" |} =
    ({| App.selectedLanguage := None;
        App.pathname := "//evil/x"; App.search := "?lang=it" |}, false) /\
  App.pushState Scenario.ownAuthority "///orbit.example/x?lang=it" st =
    Some {| App.selectedLanguage := None; App.pathname := "/x"; App.search := "?lang=it" |}.
Proof. repeat split. Qed.

(** ** The PCM codec (services/audioUtils) *)

Section Codec.

Import AudioUtils.

Lemma ZofByte_byteOfZ (z : Z) : ZofByte (byteOfZ z) = (z mod 256)%Z.
Proof.
  unfold ZofByte, byteOfZ.
  assert (Hr : (0 <= z mod 256 < 256)%Z) by (apply Z.mod_pos_bound; lia).
  destruct (Byte.of_N (Z.to_N (z mod 256))) as [b|] eqn:E.
  - apply Byte.to_of_N in E. rewrite E. lia.
  - apply Byte.of_N_None_iff in E. lia.
Qed.

Lemma int16_bytes_inverse (n : Z) :
  (-32768 <= n <= 32767)%Z ->
  match int16ToBytes n with
  | [lo; hi] => int16OfBytes lo hi = n
  | _ => False
  end.
Proof.
  intros Hn. unfold int16ToBytes, int16OfBytes.
  rewrite !ZofByte_byteOfZ.
  pose proof (Z.mod_pos_bound n 65536 ltac:(lia)) as Hu.
  pose proof (Z.div_mod n 65536 ltac:(lia)) as Hq.
  set (u := (n mod 65536)%Z) in *.
  assert (Hhi : ((u / 256) mod 256 = u / 256)%Z).
  { apply Z.mod_small. split; [apply Z.div_pos; lia|].
    apply Z.div_lt_upper_bound; lia. }
  rewrite Hhi.
  assert (Hlo : (u mod 256 + 256 * (u / 256) = u)%Z).
  { pose proof (Z.div_mod u 256 ltac:(lia)). lia. }
  rewrite Hlo.
  destruct (u <? 32768)%Z eqn:Hlt.
  - apply Z.ltb_lt in Hlt. lia.
  - apply Z.ltb_ge in Hlt. lia.
Qed.

Lemma clamp_range (n : Z) : (-32768 <= clamp n <= 32767)%Z.
Proof. unfold clamp. lia. Qed.

(** Rounding half away from zero moves a rational by at most one half. *)
Lemma roundHalfAwayFromZero_near (q : Q) :
  (inject_Z (roundHalfAwayFromZero q) - q <= 1 # 2)%Q /\
  (q - inject_Z (roundHalfAwayFromZero q) <= 1 # 2)%Q.
Proof.
  unfold roundHalfAwayFromZero.
  destruct (Qle_bool 0 q) eqn:Hs.
  - pose proof (Qfloor_le (q + (1 # 2))) as Hl.
    pose proof (Qlt_floor (q + (1 # 2))) as Hu.
    rewrite inject_Z_plus in Hu. change (inject_Z 1) with 1%Q in Hu.
    split; lra.
  - pose proof (Qfloor_le (- q + (1 # 2))) as Hl.
    pose proof (Qlt_floor (- q + (1 # 2))) as Hu.
    rewrite inject_Z_plus in Hu. change (inject_Z 1) with 1%Q in Hu.
    rewrite inject_Z_opp.
    split; lra.
Qed.

(** Clamping leaves a value of the range alone and moves any other value
    towards every point of the range. *)
Lemma clamp_cases (r : Z) :
  (clamp r = r /\ -32768 <= r <= 32767)%Z \/
  (clamp r = 32767 /\ 32768 <= r)%Z \/
  (clamp r = -32768 /\ r <= -32769)%Z.
Proof. unfold clamp. lia. Qed.

(** With the scale at half the range, full scale is the one input that is
    clamped, and clamping costs it one step. *)
Lemma quantize_near_halfRange (x : Q) :
  (-1 <= x <= 1)%Q ->
  (inject_Z (quantize halfRange x) - x * 32768 <= 1)%Q /\
  (x * 32768 - inject_Z (quantize halfRange x) <= 1)%Q.
Proof.
  intros [Hlo Hhi]. unfold quantize.
  change (inject_Z halfRange) with 32768%Q.
  destruct (roundHalfAwayFromZero_near (x * 32768)) as [H1 H2].
  set (r := roundHalfAwayFromZero (x * 32768)) in *.
  destruct (clamp_cases r) as [[-> _]|[[-> Hr]|[-> Hr]]].
  - split; lra.
  - assert (Hq : (inject_Z 32768 <= inject_Z r)%Q) by (rewrite <- Zle_Qle; lia).
    change (inject_Z 32768) with 32768%Q in Hq.
    change (inject_Z 32767) with 32767%Q.
    split; lra.
  - exfalso.
    assert (Hq : (inject_Z r <= inject_Z (-32769))%Q) by (rewrite <- Zle_Qle; lia).
    change (inject_Z (-32769)) with (-32769)%Q in Hq. lra.
Qed.

(** With the scale at the top of the range nothing is clamped. *)
Lemma quantize_near_fullScale (x : Q) :
  (-1 <= x <= 1)%Q ->
  (inject_Z (quantize fullScale x) - x * 32767 <= 1 # 2)%Q /\
  (x * 32767 - inject_Z (quantize fullScale x) <= 1 # 2)%Q.
Proof.
  intros [Hlo Hhi]. unfold quantize.
  change (inject_Z fullScale) with 32767%Q.
  destruct (roundHalfAwayFromZero_near (x * 32767)) as [H1 H2].
  set (r := roundHalfAwayFromZero (x * 32767)) in *.
  destruct (clamp_cases r) as [[-> _]|[[-> Hr]|[-> Hr]]].
  - split; lra.
  - exfalso.
    assert (Hq : (inject_Z 32768 <= inject_Z r)%Q) by (rewrite <- Zle_Qle; lia).
    change (inject_Z 32768) with 32768%Q in Hq. lra.
  - exfalso.
    assert (Hq : (inject_Z r <= inject_Z (-32769))%Q) by (rewrite <- Zle_Qle; lia).
    change (inject_Z (-32769)) with (-32769)%Q in Hq. lra.
Qed.

Lemma quantum_round_trip (scale : Z) (x : Q) :
  scale = fullScale \/ scale = halfRange ->
  (-1 <= x <= 1)%Q ->
  (Qabs (dequantize scale (quantize scale x) - x) <= 1 # 32768)%Q.
Proof.
  intros [-> | ->] Hx; unfold dequantize; apply Qabs_Qle_condition.
  - destruct (quantize_near_fullScale x Hx) as [H1 H2].
    change (inject_Z fullScale) with 32767%Q.
    set (n := inject_Z (quantize fullScale x)) in *.
    assert (E : (n / 32767 - x == (n - x * 32767) * (1 # 32767))%Q) by (field; discriminate).
    rewrite E. split; lra.
  - destruct (quantize_near_halfRange x Hx) as [H1 H2].
    change (inject_Z halfRange) with 32768%Q.
    set (n := inject_Z (quantize halfRange x)) in *.
    assert (E : (n / 32768 - x == (n - x * 32768) * (1 # 32768))%Q) by (field; discriminate).
    rewrite E. split; lra.
Qed.

Lemma sample_round_trip (scale : Z) (x : Q) :
  scale = fullScale \/ scale = halfRange ->
  (-1 <= x <= 1)%Q ->
  match int16ToBytes (quantize scale x) with
  | [lo; hi] => (Qabs (dequantize scale (int16OfBytes lo hi) - x) <= 1 # 32768)%Q
  | _ => False
  end.
Proof.
  intros Hscale Hx.
  pose proof (int16_bytes_inverse (quantize scale x) (clamp_range _)) as Hb.
  destruct (int16ToBytes (quantize scale x)) as [|lo [|hi [|? ?]]]; try contradiction.
  rewrite Hb. now apply quantum_round_trip.
Qed.

Lemma encode_cons (scale : Z) (x : Q) (xs : list Q) :
  encode scale (x :: xs) = int16ToBytes (quantize scale x) ++ encode scale xs.
Proof. reflexivity. Qed.

Lemma decodeSamples_encode (scale : Z) (xs : list Q) :
  scale = fullScale \/ scale = halfRange ->
  Forall (fun x => (-1 <= x <= 1)%Q) xs ->
  exists ys,
    decodeSamples scale (encode scale xs) = Some ys /\
    Forall2 (fun x y => (Qabs (y - x) <= 1 # 32768)%Q) xs ys.
Proof.
  intros Hscale. induction 1 as [|x xs Hx Hxs IH].
  - exists []. split; [reflexivity|constructor].
  - destruct IH as (ys & Hdec & Hys).
    pose proof (sample_round_trip scale x Hscale Hx) as Hs.
    rewrite encode_cons.
    destruct (int16ToBytes (quantize scale x)) as [|lo [|hi [|? ?]]] eqn:Hb;
      try contradiction.
    exists (dequantize scale (int16OfBytes lo hi) :: ys). split.
    + simpl. simpl in Hdec. rewrite Hdec. reflexivity.
    + constructor; assumption.
Qed.

Lemma encode_length (scale : Z) (xs : list Q) :
  length (encode scale xs) = (2 * length xs)%nat.
Proof.
  induction xs as [|x xs IH]; [reflexivity|].
  rewrite encode_cons. unfold int16ToBytes. simpl. simpl in IH. lia.
Qed.

(** An odd number of bytes is refused. *)
Lemma decode_odd (scale : Z) (bytes : list Byte.byte) (rate : Z) :
  Nat.odd (length bytes) = true -> decode scale bytes rate = None.
Proof.
  unfold decode.
  enough (H : forall n bs, (length bs <= n)%nat -> Nat.odd (length bs) = true ->
                           decodeSamples scale bs = None).
  { intros Ho. rewrite (H (length bytes) bytes (le_n _) Ho). reflexivity. }
  induction n as [|n IH]; intros [|lo [|hi bs]] Hle Ho; simpl in *; try discriminate;
    try lia; try reflexivity.
  rewrite (IH bs); [reflexivity | lia |].
  change (Nat.odd (S (S (length bs)))) with (Nat.odd (length bs)) in Ho. exact Ho.
Qed.

(** C9.  With either scale factor of 16-bit audio, for samples in the
    interval from -1 to 1, decoding the encoded sequence succeeds at any
    sample rate and gives a buffer whose samples are, one for one, within
    1/32768 of the samples encoded; every sample takes two bytes, and its
    quantized value is an integer of the signed 16-bit range. *)
Theorem decode_encode_within_quantum :
  forall (scale : Z) (xs : list Q) (rate : Z),
    scale = fullScale \/ scale = halfRange ->
    Forall (fun x => (-1 <= x <= 1)%Q) xs ->
    length (encode scale xs) = (2 * length xs)%nat /\
    Forall (fun x => (-32768 <= quantize scale x <= 32767)%Z) xs /\
    exists buffer,
      decode scale (encode scale xs) rate = Some buffer /\
      sampleRate buffer = rate /\
      Forall2 (fun x y => (Qabs (y - x) <= 1 # 32768)%Q) xs (samples buffer).
Proof.
  intros scale xs rate Hscale Hxs.
  split; [apply encode_length|].
  split.
  - apply Forall_forall. intros x _. apply clamp_range.
  - destruct (decodeSamples_encode scale xs Hscale Hxs) as (ys & Hdec & Hys).
    exists {| samples := ys; sampleRate := rate |}.
    unfold decode. rewrite Hdec. repeat split. exact Hys.
Qed.

End Codec.

Lemma decode_encode_within_quantum_witness :
  exists buffer,
    AudioUtils.decode AudioUtils.halfRange
      (AudioUtils.encode AudioUtils.halfRange [1; - (1 # 3); 3 # 65536]%Q) 24000
    = Some buffer /\
    AudioUtils.sampleRate buffer = 24000%Z /\
    Forall2 (fun x y => (Qabs (y - x) <= 1 # 32768)%Q)
            [1; - (1 # 3); 3 # 65536]%Q (AudioUtils.samples buffer).
Proof.
  assert (H : Forall (fun x => (-1 <= x <= 1)%Q) [1; - (1 # 3); 3 # 65536]%Q).
  { repeat constructor; vm_compute; discriminate. }
  exact (proj2 (proj2 (decode_encode_within_quantum
                         AudioUtils.halfRange _ 24000%Z (or_intror eq_refl) H))).
Defined.

(** The bound is attained: full scale is clamped one step down. *)
Example full_scale_is_one_step_off :
  AudioUtils.decodeSamples AudioUtils.halfRange
    (AudioUtils.encode AudioUtils.halfRange [1%Q]) = Some [32767 # 32768].
Proof. reflexivity. Qed.

Example half_steps_go_away_from_zero :
  map (AudioUtils.quantize AudioUtils.halfRange)
      [1 # 65536; - (1 # 65536); 3 # 65536; - (3 # 65536)]%Q
  = [1; -1; 2; -2]%Z.
Proof. reflexivity. Qed.

Example encode_is_little_endian :
  AudioUtils.encode AudioUtils.halfRange [1 # 128; - (1 # 128)]%Q
  = [Byte.x00; Byte.x01; Byte.x00; Byte.xff].
Proof. reflexivity. Qed.

(** ** The live session (src/components/LiveTutor.tsx) *)

Import LiveTutor.

(** *** What each part of the message handler leaves alone *)

Lemma handleTranscription_frame (m : LiveServerMessage) (s : State) :
  refs (handleTranscription m s) = refs s /\
  world (handleTranscription m s) = world s /\
  voiceMessages (hooks (handleTranscription m s)) = voiceMessages (hooks s).
Proof.
  unfold handleTranscription.
  destruct (inputTranscription m) as [i|], (outputTranscription m) as [o|];
    try destruct (JS.truthy i); try destruct (JS.truthy o); simpl; auto.
Qed.

Lemma commitTurn_frame (clock : Clock) (r : Render) (m : LiveServerMessage) (s : State) :
  refs (commitTurn clock r m s) = refs s /\
  world (commitTurn clock r m s) = world s.
Proof.
  unfold commitTurn.
  destruct (turnComplete m); [|auto].
  destruct (JS.truthy (JS.trim (renderUserText r))),
           (JS.truthy (JS.trim (renderModelText r))); simpl; auto.
Qed.

Lemma handleInterrupted_not (m : LiveServerMessage) (s : State) :
  interrupted m = false -> handleInterrupted m s = s.
Proof. unfold handleInterrupted. intros ->. reflexivity. Qed.

(** Without an interruption the refs and the outside world after a message
    are those the audio part leaves. *)
Lemma onmessage_not_interrupted (au : AudioUtils) (clock : Clock) (r : Render)
    (m : LiveServerMessage) (s : State) :
  interrupted m = false ->
  refs (onmessage au clock r m s) = refs (fst (playAudio au clock m s)) /\
  world (onmessage au clock r m s) = world (fst (playAudio au clock m s)).
Proof.
  intros Hi. unfold onmessage.
  destruct (playAudio au clock m s) as [s1 [|]]; simpl; [|auto].
  rewrite handleInterrupted_not by assumption.
  destruct (commitTurn_frame clock r m (handleTranscription m s1)) as [-> ->].
  destruct (handleTranscription_frame m s1) as (-> & -> & _). auto.
Qed.

(** *** Scheduling *)

Section Playback.

Variable au : AudioUtils.

(** The duration of a decoded buffer is not negative. *)
Hypothesis duration_nonneg :
  forall data d, decodedDuration au data = Some d -> (0 <= d)%Q.

Lemma playAudio_cursor (clock : Clock) (m : LiveServerMessage) (s : State) :
  (nextStartTimeRef (refs s) <= nextStartTimeRef (refs (fst (playAudio au clock m s))))%Q.
Proof.
  unfold playAudio.
  destruct (inlineData m) as [data|]; [|apply Qle_refl].
  destruct (outputAudioContextRef (refs s)); [|apply Qle_refl].
  destruct (JS.truthy data); [|apply Qle_refl].
  destruct (decodedDuration au data) as [d|] eqn:Hd; simpl.
  - pose proof (duration_nonneg _ _ Hd).
    pose proof (Q.le_max_l (nextStartTimeRef (refs s)) (currentTime clock)).
    lra.
  - apply Q.le_max_l.
Qed.

Lemma playAudio_schedules (clock : Clock) (m : LiveServerMessage) (s : State)
    (data : string) (d : Q) :
  inlineData m = Some data ->
  JS.truthy data = true ->
  outputAudioContextRef (refs s) <> None ->
  decodedDuration au data = Some d ->
  let startAt := Qmax (nextStartTimeRef (refs s)) (currentTime clock) in
  let s' := fst (playAudio au clock m s) in
  effects (world s') = effects (world s) ++ [SourceStart (fresh (world s)) startAt d] /\
  nextStartTimeRef (refs s') = (startAt + d)%Q /\
  sourcesRef (refs s') = sourcesRef (refs s) ++ [fresh (world s)].
Proof.
  intros Hdata Ht Hctx Hd. unfold playAudio. rewrite Hdata.
  destruct (outputAudioContextRef (refs s)); [|contradiction].
  rewrite Ht, Hd. simpl. auto.
Qed.

Lemma deliver_cursor (r : Render) (ms : list (Clock * LiveServerMessage)) (s : State) :
  Forall (fun cm => interrupted (snd cm) = false) ms ->
  (nextStartTimeRef (refs s) <= nextStartTimeRef (refs (deliver au r s ms)))%Q.
Proof.
  intros H. revert s. induction H as [|[clock m] ms Hm _ IH]; intros s; simpl.
  - apply Qle_refl.
  - eapply Qle_trans; [|apply IH].
    destruct (onmessage_not_interrupted au clock r m s Hm) as [-> _].
    apply playAudio_cursor.
Qed.

(** C1.  While no message is an interruption, the playback cursor never
    moves back, neither over the messages handled so far nor over the next
    one; a chunk that is decoded is started at the later of the cursor and
    the clock reading, and the cursor then stands at that start plus the
    duration of the chunk.  So a chunk never starts before the end of the
    chunk scheduled before it, and it starts exactly at that end whenever
    the clock has not passed it. *)
Theorem chunks_play_back_to_back :
  forall (r : Render) (before : list (Clock * LiveServerMessage))
         (clock : Clock) (m : LiveServerMessage) (s : State),
    Forall (fun cm => interrupted (snd cm) = false) (before ++ [(clock, m)]) ->
    let s1 := deliver au r s before in
    let s2 := deliver au r s (before ++ [(clock, m)]) in
    (nextStartTimeRef (refs s) <= nextStartTimeRef (refs s1))%Q /\
    (nextStartTimeRef (refs s1) <= nextStartTimeRef (refs s2))%Q /\
    forall data d,
      inlineData m = Some data ->
      JS.truthy data = true ->
      outputAudioContextRef (refs s1) <> None ->
      decodedDuration au data = Some d ->
      let startAt := Qmax (nextStartTimeRef (refs s1)) (currentTime clock) in
      effects (world s2) =
        effects (world s1) ++ [SourceStart (fresh (world s1)) startAt d] /\
      sourcesRef (refs s2) = sourcesRef (refs s1) ++ [fresh (world s1)] /\
      nextStartTimeRef (refs s2) = (startAt + d)%Q /\
      (nextStartTimeRef (refs s1) <= startAt)%Q /\
      ((currentTime clock <= nextStartTimeRef (refs s1))%Q ->
       (startAt == nextStartTimeRef (refs s1))%Q).
Proof.
  intros r before clock m s Hall s1 s2.
  apply Forall_app in Hall as [Hbefore Hm].
  apply Forall_inv in Hm. simpl in Hm.
  assert (E : s2 = onmessage au clock r m s1).
  { unfold s2, s1, deliver. rewrite fold_left_app. reflexivity. }
  destruct (onmessage_not_interrupted au clock r m s1 Hm) as [Hrefs Hworld].
  split; [apply deliver_cursor; assumption|].
  split.
  { rewrite E, Hrefs. apply playAudio_cursor. }
  intros data d Hdata Ht Hctx Hd startAt.
  destruct (playAudio_schedules clock m s1 data d Hdata Ht Hctx Hd) as (He & Hc & Hs).
  rewrite E, Hrefs, Hworld.
  repeat split; try assumption.
  - apply Q.le_max_l.
  - intros Hle. apply Q.max_l. exact Hle.
Qed.

End Playback.

Lemma scenario_duration_nonneg :
  forall data d, decodedDuration Scenario.au data = Some d -> (0 <= d)%Q.
Proof.
  intros data d H. simpl in H. injection H as <-.
  apply Qle_shift_div_l; [reflexivity|].
  rewrite Qmult_0_l. change 0%Q with (inject_Z 0).
  rewrite <- Zle_Qle. lia.
Qed.

Lemma chunks_play_back_to_back_witness :
  let before := [(Scenario.at_ 1, AudioChunk "AAAAAAAAAAAAAAAA")] in
  let clock := Scenario.at_ (10001 # 10000) in
  let m := AudioChunk "AAAAAAAA" in
  let s1 := deliver Scenario.au Scenario.firstRender Scenario.connected before in
  let s2 := deliver Scenario.au Scenario.firstRender Scenario.connected
              (before ++ [(clock, m)]) in
  let startAt := Qmax (nextStartTimeRef (refs s1)) (currentTime clock) in
  Forall (fun cm => interrupted (snd cm) = false) (before ++ [(clock, m)]) /\
  (nextStartTimeRef (refs Scenario.connected) <= nextStartTimeRef (refs s1))%Q /\
  (nextStartTimeRef (refs s1) <= nextStartTimeRef (refs s2))%Q /\
  effects (world s2) =
    effects (world s1)
    ++ [SourceStart (fresh (world s1)) startAt
          (inject_Z (Z.of_nat (String.length "AAAAAAAA")) / 64000)] /\
  (startAt == nextStartTimeRef (refs s1))%Q.
Proof.
  intros before clock m s1 s2 startAt.
  assert (Hall : Forall (fun cm => interrupted (snd cm) = false) (before ++ [(clock, m)])).
  { repeat constructor. }
  split; [exact Hall|].
  pose proof (chunks_play_back_to_back Scenario.au scenario_duration_nonneg
                Scenario.firstRender before clock m Scenario.connected Hall)
    as (H1 & H2 & H3).
  split; [exact H1|]. split; [exact H2|].
  assert (Hctx : outputAudioContextRef (refs s1) <> None) by (vm_compute; discriminate).
  assert (Hclock : (currentTime clock <= nextStartTimeRef (refs s1))%Q)
    by (vm_compute; discriminate).
  destruct (H3 "AAAAAAAA" _ eq_refl eq_refl Hctx eq_refl) as (He & _ & _ & _ & Hgap).
  split; [exact He | exact (Hgap Hclock)].
Defined.

(** *** Interruption *)

Lemma stopAll_fold (l : list nat) (s : State) :
  let s' := fold_left (fun acc source => log (SourceStop source) acc) l s in
  hooks s' = hooks s /\
  refs s' = refs s /\
  connections (world s') = connections (world s) /\
  processors (world s') = processors (world s) /\
  fresh (world s') = fresh (world s) /\
  effects (world s') = effects (world s) ++ map SourceStop l.
Proof.
  revert s. induction l as [|x l IH]; intros s; simpl.
  - rewrite app_nil_r. repeat split.
  - destruct (IH (log (SourceStop x) s)) as (-> & -> & -> & -> & -> & ->).
    simpl. rewrite <- app_assoc. repeat split.
Qed.

Lemma playAudio_no_audio (au : AudioUtils) (clock : Clock) (m : LiveServerMessage) (s : State) :
  inlineData m = None -> playAudio au clock m s = (s, true).
Proof. unfold playAudio. intros ->. reflexivity. Qed.




(** *** The transcript *)

(** Deltas are appended to the accumulator of their speaker. *)
Lemma deltas_accumulate (au : AudioUtils) (clock : Clock) (r : Render) (t : string) (s : State) :
  JS.truthy t = true ->
  currentLiveUserText (hooks (onmessage au clock r (InputTranscriptDelta t) s))
    = (currentLiveUserText (hooks s) ++ t)%string /\
  currentLiveModelText (hooks (onmessage au clock r (OutputTranscriptDelta t) s))
    = (currentLiveModelText (hooks s) ++ t)%string.
Proof.
  intros Ht. unfold onmessage, playAudio, handleTranscription, commitTurn, handleInterrupted.
  simpl. rewrite Ht. simpl. auto.
Qed.

(** What a turn completion commits is decided by the render the callback
    closes over: when both of its texts are blank, the log and the two
    accumulators are left as they are, whatever the accumulators hold. *)
Lemma commitTurn_blank_render (clock : Clock) (r : Render) (m : LiveServerMessage) (s : State) :
  JS.truthy (JS.trim (renderUserText r)) = false ->
  JS.truthy (JS.trim (renderModelText r)) = false ->
  let s' := commitTurn clock r m s in
  voiceMessages (hooks s') = voiceMessages (hooks s) /\
  currentLiveUserText (hooks s') = currentLiveUserText (hooks s) /\
  currentLiveModelText (hooks s') = currentLiveModelText (hooks s).
Proof.
  intros Hu Hm. unfold commitTurn. rewrite Hu, Hm.
  destruct (turnComplete m); simpl; auto.
Qed.

(** When both texts of that render are not blank, they are what is
    committed, the user's first. *)
Lemma commitTurn_order (clock : Clock) (r : Render) (s : State) :
  JS.truthy (JS.trim (renderUserText r)) = true ->
  JS.truthy (JS.trim (renderModelText r)) = true ->
  voiceMessages (hooks (commitTurn clock r TurnComplete s)) =
    voiceMessages (hooks s)
    ++ [ {| id := stamp clock "_u"; role := user; text := renderUserText r |};
         {| id := stamp clock "_m"; role := model; text := renderModelText r |} ].
Proof.
  intros Hu Hm. unfold commitTurn. simpl. rewrite Hu, Hm. simpl.
  rewrite <- app_assoc. reflexivity.
Qed.

(** C3.  On a fresh connection the tutor's deltas "Bon" and "jour" do
    accumulate to "Bonjour", but the turn completion that follows commits
    no message and clears nothing: the handler tests the texts of the render
    in which the connection was made, which are empty. *)
Theorem turn_complete_leaves_accumulated_text :
  let s := run Scenario.au Scenario.italian Scenario.connected
             [SocketMessage 0 (Scenario.at_ 1) (OutputTranscriptDelta "Bon");
              SocketMessage 0 (Scenario.at_ 2) (OutputTranscriptDelta "jour")] in
  let s' := step Scenario.au Scenario.italian s
              (SocketMessage 0 (Scenario.at_ 3) TurnComplete) in
  currentLiveModelText (hooks s) = "Bonjour" /\
  voiceMessages (hooks s') = voiceMessages (hooks s) /\
  Forall (fun msg => text msg <> "Bonjour") (voiceMessages (hooks s')) /\
  currentLiveModelText (hooks s') = "Bonjour".
Proof.
  vm_compute. repeat split. repeat constructor. discriminate.
Qed.

(** C5.  With "Salut" accumulated for the user and "Bonjour" for the tutor,
    both not blank, the turn completion appends neither message, for the
    same reason. *)
Theorem turn_complete_with_both_accumulators :
  let s := run Scenario.au Scenario.italian Scenario.connected
             [SocketMessage 0 (Scenario.at_ 1) (InputTranscriptDelta "Salut");
              SocketMessage 0 (Scenario.at_ 2) (OutputTranscriptDelta "Bonjour")] in
  let s' := step Scenario.au Scenario.italian s
              (SocketMessage 0 (Scenario.at_ 3) TurnComplete) in
  JS.truthy (JS.trim (currentLiveUserText (hooks s))) = true /\
  JS.truthy (JS.trim (currentLiveModelText (hooks s))) = true /\
  voiceMessages (hooks s') = voiceMessages (hooks s) /\
  currentLiveUserText (hooks s') = "Salut" /\
  currentLiveModelText (hooks s') = "Bonjour".
Proof.
  vm_compute. repeat split.
Qed.

(** *** Connecting, capture and teardown *)

Lemma ensureAudioContexts_frame (b : Browser) (s : State) :
  let s1 := fst (ensureAudioContexts b s) in
  hooks s1 = hooks s /\
  world s1 = world s /\
  nextStartTimeRef (refs s1) = nextStartTimeRef (refs s) /\
  sourcesRef (refs s1) = sourcesRef (refs s) /\
  liveSessionRef (refs s1) = liveSessionRef (refs s) /\
  scriptProcessorRef (refs s1) = scriptProcessorRef (refs s) /\
  streamRef (refs s1) = streamRef (refs s) /\
  isConnectingRef (refs s1) = isConnectingRef (refs s).
Proof.
  destruct s as [h [i o n srcs l p st c] w].
  destruct b as [fresh_state in_throws out_throws resume_ok gum_ok throws].
  destruct i as [[]|], o as [[]|], fresh_state, in_throws, out_throws, resume_ok; cbv; repeat split.
Qed.

(** C8.  With the session connected and the microphone off, a refused
    [getUserMedia] leaves the session connected with the microphone off,
    sets the error shown to the user, and changes neither the stream ref,
    nor the processor ref, nor anything outside the component: no stream is
    acquired and no processor is wired, so where none was held none is. *)
Theorem microphone_permission_denied :
  forall (b : Browser) (language : Types.Language) (s : State),
    isConnected (hooks s) = true ->
    isMicOn (hooks s) = false ->
    snd (ensureAudioContexts b s) = true ->
    getUserMediaGranted b = false ->
    let s' := toggleMic b language s in
    isConnected (hooks s') = true /\
    isMicOn (hooks s') = false /\
    voiceError (hooks s') = Some "Sem acesso ao microfone" /\
    voiceStatus (hooks s') = voiceStatus (hooks s) /\
    streamRef (refs s') = streamRef (refs s) /\
    scriptProcessorRef (refs s') = scriptProcessorRef (refs s) /\
    liveSessionRef (refs s') = liveSessionRef (refs s) /\
    world s' = world s /\
    (streamRef (refs s) = None -> streamRef (refs s') = None) /\
    (scriptProcessorRef (refs s) = None -> scriptProcessorRef (refs s') = None).
Proof.
  intros b language s Hc Hm He Hg s'.
  pose proof (ensureAudioContexts_frame b s) as (Hh & Hw & _ & _ & Hl & Hp & Hst & _).
  assert (E : s' = setVoiceError (Some "Sem acesso ao microfone") (fst (ensureAudioContexts b s))).
  { unfold s', toggleMic. rewrite Hc. simpl.
    destruct (ensureAudioContexts b s) as [s1 ok]. simpl in He. subst ok.
    rewrite Hm, Hg. reflexivity. }
  rewrite E. simpl. rewrite Hh, Hw, Hl, Hp, Hst, Hc, Hm.
  repeat split; auto.
Qed.

Lemma microphone_permission_denied_witness :
  let s' := toggleMic Scenario.denying Scenario.italian Scenario.connected in
  isConnected (hooks s') = true /\
  isMicOn (hooks s') = false /\
  voiceError (hooks s') = Some "Sem acesso ao microfone" /\
  streamRef (refs s') = None /\
  scriptProcessorRef (refs s') = None.
Proof.
  intros s'.
  assert (Hc : isConnected (hooks Scenario.connected) = true) by (vm_compute; reflexivity).
  assert (Hm : isMicOn (hooks Scenario.connected) = false) by (vm_compute; reflexivity).
  assert (He : snd (ensureAudioContexts Scenario.denying Scenario.connected) = true)
    by (vm_compute; reflexivity).
  assert (Hg : getUserMediaGranted Scenario.denying = false) by reflexivity.
  destruct (microphone_permission_denied Scenario.denying Scenario.italian
              Scenario.connected Hc Hm He Hg)
    as (H1 & H2 & H3 & _ & _ & _ & _ & _ & H9 & H10).
  split; [exact H1|]. split; [exact H2|]. split; [exact H3|].
  split; [apply H9 | apply H10]; vm_compute; reflexivity.
Defined.

Lemma sendAll_fold (k : nat) (l : list string) (s : State) :
  let s' := fold_left (fun acc data => log (SendRealtimeInput k data) acc) l s in
  hooks s' = hooks s /\
  refs s' = refs s /\
  connections (world s') = connections (world s) /\
  effects (world s') = effects (world s) ++ map (SendRealtimeInput k) l.
Proof.
  revert s. induction l as [|x l IH]; intros s; simpl.
  - rewrite app_nil_r. repeat split.
  - destruct (IH (log (SendRealtimeInput k x) s)) as (-> & -> & -> & ->).
    simpl. rewrite <- app_assoc. repeat split.
Qed.

(** C7 (as the code has it).  What happens to a captured frame is decided
    by the session promise alone, not by whether the transport is open.
    Without a stored promise the frame is dropped.  On a fulfilled promise
    it is passed to [sendRealtimeInput] at once.  On a pending promise it is
    held by the promise, behind the frames held before it, and all of them
    are sent in that order when the promise is fulfilled; they are dropped
    when it is rejected, as is a frame that meets a rejected promise. *)
Theorem captured_frame_follows_session_promise :
  forall (au : AudioUtils) (inputData : list Q) (s : State),
    let data := float32ToB64PCM au inputData in
    let s' := onaudioprocess au inputData s in
    match liveSessionRef (refs s) with
    | None => s' = s
    | Some k =>
        match connections (world s) !! k with
        | None => s' = s
        | Some c =>
            match promise c with
            | fulfilled =>
                effects (world s') = effects (world s) ++ [SendRealtimeInput k data] /\
                connections (world s') = connections (world s)
            | pending =>
                effects (world s') = effects (world s) /\
                connections (world s') !! k = Some (addReaction data c) /\
                effects (world (settle k true s')) =
                  effects (world s) ++ map (SendRealtimeInput k) (reactions c ++ [data]) /\
                effects (world (settle k false s')) = effects (world s)
            | rejected => s' = s
            end
        end
    end.
Proof.
  intros au inputData s data s'. unfold s', onaudioprocess. fold data.
  destruct (liveSessionRef (refs s)) as [k|]; [|reflexivity].
  unfold thenSend.
  destruct (connections (world s) !! k) as [c|] eqn:Hk; [|reflexivity].
  destruct (promise c) eqn:Hp; [|split; reflexivity|reflexivity].
  assert (Hk' : connections (world (updateConnection k (addReaction data) s)) !! k
                = Some (addReaction data c)).
  { simpl. rewrite list_lookup_alter. rewrite decide_True by reflexivity.
    rewrite Hk. reflexivity. }
  split; [reflexivity|]. split; [exact Hk'|].
  unfold settle. rewrite Hk'. simpl promise. rewrite Hp. split.
  - match goal with
    | |- effects (world (fold_left _ ?l ?s0)) = _ =>
        destruct (sendAll_fold k l s0) as (_ & _ & _ & ->)
    end.
    reflexivity.
  - reflexivity.
Qed.

Lemma captured_frame_follows_session_promise_witness :
  let frame := [1 # 2; - (1 # 4)]%Q in
  let data := float32ToB64PCM Scenario.au frame in
  let s := Scenario.reconnecting in
  let s' := onaudioprocess Scenario.au frame s in
  effects (world s') = effects (world s) /\
  effects (world (settle 1 true s')) = effects (world s) ++ [SendRealtimeInput 1 data].
Proof.
  intros frame data s s'.
  assert (Hl : liveSessionRef (refs s) = Some 1%nat) by (vm_compute; reflexivity).
  assert (Hc : exists c, connections (world s) !! 1%nat = Some c /\
                         promise c = pending /\ reactions c = []).
  { eexists. vm_compute. repeat split. }
  destruct Hc as (c & Hc & Hp & Hr).
  pose proof (captured_frame_follows_session_promise Scenario.au frame s) as H.
  cbv zeta in H. rewrite Hl, Hc, Hp, Hr in H.
  destruct H as (H1 & _ & H3 & _).
  split; [exact H1 | exact H3].
Defined.

(** C7, as stated, fails.  The socket of the first connection has closed
    with the microphone on, and a second connection is being made: the
    session is not open.  A frame captured now is not sent now; it is held
    by the pending promise, and it is sent once that promise is fulfilled. *)
Lemma frame_captured_while_connecting_is_sent_later :
  let s := Scenario.reconnecting in
  let frame := [1 # 2; - (1 # 4)]%Q in
  let data := float32ToB64PCM Scenario.au frame in
  let s1 := step Scenario.au Scenario.italian s (AudioProcess 1 frame) in
  let s2 := run Scenario.au Scenario.italian s1 [SocketOpen 1; Settle 1 true] in
  isConnected (hooks s) = false /\
  liveSessionRef (refs s) = Some 1 /\
  socket <$> connections (world s) !! 1 = Some connecting /\
  effects (world s1) = effects (world s) /\
  reactions <$> connections (world s1) !! 1 = Some [data] /\
  effects (world s2) = effects (world s) ++ [SendRealtimeInput 1 data].
Proof.
  vm_compute. repeat split.
Qed.

(** *** Teardown *)

(** C4 (as the code has it).  [disconnectVoice] stops the tracks of the
    stream that [streamRef] holds, if it holds one, and closes the audio
    contexts the refs hold, once each; it stops no other stream.  It
    forgets the contexts and resets the flags.  It does nothing to the
    transport: the session ref and every connection are as before, and no
    close of a session is asked for.  A second call in succession changes
    no hook and no ref, closes no context again and asks for no close of a
    session either; the stream that was held has been stopped. *)
Theorem disconnect_releases_microphone_and_contexts :
  forall s : State,
    let s1 := disconnectVoice s in
    let s2 := disconnectVoice s1 in
    effects (world s1) =
      effects (world s)
      ++ map TrackStop (option_list (streamRef (refs s)))
      ++ closes inputContext (inputAudioContextRef (refs s))
      ++ closes outputContext (outputAudioContextRef (refs s)) /\
    inputAudioContextRef (refs s1) = None /\
    outputAudioContextRef (refs s1) = None /\
    isConnected (hooks s1) = false /\
    isMicOn (hooks s1) = false /\
    liveSessionRef (refs s1) = liveSessionRef (refs s) /\
    connections (world s1) = connections (world s) /\
    (forall k, In (SessionClose k) (effects (world s1)) ->
               In (SessionClose k) (effects (world s))) /\
    hooks s2 = hooks s1 /\
    refs s2 = refs s1 /\
    connections (world s2) = connections (world s1) /\
    (exists added,
        effects (world s2) = effects (world s1) ++ added /\
        (forall c, ~ In (ContextClose c) added) /\
        (forall k, ~ In (SessionClose k) added)) /\
    (forall stream, streamRef (refs s) = Some stream ->
                    In (TrackStop stream) (effects (world s2))).
Proof.
  intros [h [i o n srcs l p st c] [cs ps f es]].
  destruct st as [stream|], i as [ci|], o as [co|];
    (cbv -[app In]; rewrite <- ?app_assoc, ?app_nil_r;
     split; [reflexivity|]; split; [reflexivity|]; split; [reflexivity|];
     split; [reflexivity|]; split; [reflexivity|]; split; [reflexivity|];
     split; [reflexivity|];
     split; [intros k Hk; rewrite ?in_app_iff in Hk; simpl in Hk;
             intuition discriminate|];
     split; [reflexivity|]; split; [reflexivity|]; split; [reflexivity|];
     split;
       [ first [ exists [TrackStop stream] | exists [] ];
         rewrite ?app_nil_r, <- ?app_assoc;
         split; [reflexivity|];
         split; intros x Hx; simpl in Hx; intuition discriminate
       | intros x Hx; try discriminate; injection Hx as <-;
         rewrite ?in_app_iff; simpl; auto ]).
Qed.

Lemma disconnect_releases_microphone_and_contexts_witness :
  let s := Scenario.listening in
  let s1 := disconnectVoice s in
  let s2 := disconnectVoice s1 in
  streamRef (refs s) = Some 0 /\
  effects (world s1) =
    effects (world s)
    ++ map TrackStop (option_list (streamRef (refs s)))
    ++ closes inputContext (inputAudioContextRef (refs s))
    ++ closes outputContext (outputAudioContextRef (refs s)) /\
  inputAudioContextRef (refs s1) = None /\
  outputAudioContextRef (refs s1) = None /\
  hooks s2 = hooks s1 /\
  In (TrackStop 0) (effects (world s2)).
Proof.
  intros s s1 s2.
  assert (Hst : streamRef (refs s) = Some 0%nat) by (vm_compute; reflexivity).
  destruct (disconnect_releases_microphone_and_contexts s)
    as (H1 & H2 & H3 & _ & _ & _ & _ & _ & H9 & _ & _ & _ & H13).
  split; [exact Hst|]. split; [exact H1|]. split; [exact H2|]. split; [exact H3|].
  split; [exact H9|]. exact (H13 0%nat Hst).
Defined.

(** C4, as stated, fails.  With the session connected and the microphone
    on, [disconnectVoice] asks for no close of the session and the socket
    stays open; and calling it twice stops the tracks of the stream twice. *)
Lemma disconnect_leaves_transport_open :
  let s := Scenario.listening in
  let s1 := disconnectVoice s in
  let s2 := disconnectVoice s1 in
  liveSessionRef (refs s) = Some 0 /\
  socket <$> connections (world s) !! 0 = Some opened /\
  socket <$> connections (world s1) !! 0 = Some opened /\
  socket <$> connections (world s2) !! 0 = Some opened /\
  ~ In (SessionClose 0) (effects (world s2)) /\
  effects (world s2) =
    effects (world s)
    ++ [TrackStop 0; ContextClose inputContext; ContextClose outputContext; TrackStop 0].
Proof.
  vm_compute. repeat split. intuition discriminate.
Qed.

(** The stream that teardown stops is the one [streamRef] holds.  The
    socket closes with the microphone on, which leaves the stream in place;
    the user connects again and switches the microphone on, which puts a
    new stream in the ref.  Teardown then stops the new stream, and the
    first one is never stopped. *)
Example teardown_stops_only_the_held_stream :
  let s := run Scenario.au Scenario.italian Scenario.listening
             [SocketClose 0; Click Scenario.granting; SocketOpen 1; Settle 1 true;
              Click Scenario.granting] in
  let s1 := disconnectVoice s in
  In (GetUserMedia 0) (effects (world s)) /\
  streamRef (refs s) = Some 2 /\
  In (TrackStop 2) (effects (world s1)) /\
  ~ In (TrackStop 0) (effects (world s1)).
Proof.
  vm_compute. repeat split; intuition discriminate.
Qed.

(* ================================================================== *)
(** * Further properties *)

(** ** Leaving a session and starting from a URL (src/App.tsx) *)

Lemma urlPathname_plain (p : string) :
  JS.stringForall JS.isPathCharacter p = true -> JS.urlPathname p = p.
Proof.
  unfold JS.urlPathname.
  induction p as [|c p IH]; simpl; intros H; [reflexivity|].
  apply andb_prop in H as [Hc Hp]. unfold JS.isPathCharacter in Hc.
  apply negb_true_iff in Hc. rewrite Hc. f_equal. auto.
Qed.

Lemma urlSearch_plain (p : string) :
  JS.stringForall JS.isPathCharacter p = true -> JS.urlSearch p = "".
Proof.
  unfold JS.urlSearch. intros H.
  assert (E : JS.dropUntil JS.isQueryOrFragment p = "").
  { induction p as [|c p IH]; simpl in *; [reflexivity|].
    apply andb_prop in H as [Hc Hp]. unfold JS.isPathCharacter in Hc.
    apply negb_true_iff in Hc. rewrite Hc. auto. }
  rewrite E. reflexivity.
Qed.

Lemma append_empty (p : string) : (p ++ "")%string = p.
Proof.
  induction p as [|c p IH]; [reflexivity|].
  change (String c (p ++ "")%string = String c p). now rewrite IH.
Qed.

Lemma handleExit_single_slash (ownAuthority : string -> bool) (st : App.State) :
  JS.isSingleSlashPath (App.pathname st) = true ->
  App.handleExit ownAuthority st =
  ({| App.selectedLanguage := None;
      App.pathname := App.pathname st;
      App.search := "" |}, true).
Proof.
  intros Hp. unfold App.handleExit, App.pushState.
  change (App.pathname (App.setSelectedLanguage None st)) with (App.pathname st).
  pose proof (parseReference_single_slash (App.pathname st) "" Hp I) as E.
  rewrite append_empty in E. rewrite E.
  apply isSingleSlashPath_characters in Hp.
  rewrite urlPathname_plain, urlSearch_plain by assumption. reflexivity.
Qed.

(** X1.  At a location whose path begins with a single slash, leaving the
    session returns normally, clears the selection and removes the query
    from the location, keeping the path; the application started at that
    location shows the selection grid.  In particular leaving undoes a
    selection, whichever profile was selected. *)
Theorem exit_clears_selection_and_query :
  forall (ownAuthority : string -> bool) (st : App.State),
    JS.isSingleSlashPath (App.pathname st) = true ->
    let st' := fst (App.handleExit ownAuthority st) in
    snd (App.handleExit ownAuthority st) = true /\
    App.selectedLanguage st' = None /\
    App.pathname st' = App.pathname st /\
    App.search st' = "" /\
    App.selectedLanguage (App.init (App.pathname st') (App.search st')) = None /\
    forall l : Types.Language,
      let started := App.handleStartSession ownAuthority l st in
      let st'' := fst (App.handleExit ownAuthority (fst started)) in
      snd started = true /\
      snd (App.handleExit ownAuthority (fst started)) = true /\
      App.selectedLanguage st'' = None /\
      App.pathname st'' = App.pathname st /\
      App.search st'' = "".
Proof.
  intros own st Hpath st'. unfold st'.
  rewrite handleExit_single_slash by assumption.
  cbn [fst snd App.selectedLanguage App.pathname App.search].
  split; [reflexivity|]. split; [reflexivity|]. split; [reflexivity|].
  split; [reflexivity|]. split; [reflexivity|].
  intros l. cbv zeta.
  rewrite handleStartSession_single_slash by assumption.
  cbn [fst snd].
  rewrite handleExit_single_slash by exact Hpath.
  cbn [fst snd App.selectedLanguage App.pathname App.search].
  repeat split.
Qed.

Lemma exit_clears_selection_and_query_witness :
  let st := fst (App.handleStartSession Scenario.ownAuthority Scenario.italian
              {| App.selectedLanguage := None; App.pathname := "/orbit/"; App.search := "" |}) in
  App.selectedLanguage st = Some Scenario.italian /\
  App.search st = "?lang=it" /\
  App.selectedLanguage (fst (App.handleExit Scenario.ownAuthority st)) = None /\
  App.search (fst (App.handleExit Scenario.ownAuthority st)) = "".
Proof.
  intros st.
  assert (Hpath : JS.isSingleSlashPath (App.pathname st) = true)
    by (vm_compute; reflexivity).
  destruct (exit_clears_selection_and_query Scenario.ownAuthority st Hpath)
    as (_ & H1 & _ & H3 & _).
  split; [vm_compute; reflexivity|]. split; [vm_compute; reflexivity|].
  split; [exact H1 | exact H3].
Defined.

(** X2.  The mount effect never touches the location and never clears a
    selection; when it selects, it selects a profile of the catalogue whose
    id is the value of the first [lang] parameter.  So whatever the URL,
    the application starts either on the selection grid or on a tutor of
    the catalogue. *)
Theorem mount_selects_only_catalogue_languages :
  forall st : App.State,
    let st' := App.mountEffect st in
    App.pathname st' = App.pathname st /\
    App.search st' = App.search st /\
    (App.selectedLanguage st' = App.selectedLanguage st \/
     exists l, App.selectedLanguage st' = Some l /\
               In l Constants.LANGUAGES /\
               JS.get "lang" (JS.URLSearchParams (App.search st)) = Some (Types.id l)) /\
    forall path query l,
      App.selectedLanguage (App.init path query) = Some l ->
      In l Constants.LANGUAGES /\
      JS.get "lang" (JS.URLSearchParams query) = Some (Types.id l).
Proof.
  assert (H : forall st : App.State,
             let st' := App.mountEffect st in
             App.pathname st' = App.pathname st /\
             App.search st' = App.search st /\
             (App.selectedLanguage st' = App.selectedLanguage st \/
              exists l, App.selectedLanguage st' = Some l /\
                        In l Constants.LANGUAGES /\
                        JS.get "lang" (JS.URLSearchParams (App.search st)) = Some (Types.id l))).
  { intros st. unfold App.mountEffect.
    destruct (JS.get "lang" (JS.URLSearchParams (App.search st))) as [v|]; [|simpl; auto].
    destruct (JS.truthy v); [|simpl; auto].
    destruct (App.findLanguage v) as [l|] eqn:E; [|simpl; auto].
    apply findLanguage_In in E as [Hin <-].
    simpl. repeat split. right. exists l. auto. }
  intros st st'. destruct (H st) as (H1 & H2 & H3).
  split; [exact H1|]. split; [exact H2|]. split; [exact H3|].
  intros path query l Hsel. unfold App.init in Hsel.
  destruct (H {| App.selectedLanguage := None; App.pathname := path; App.search := query |})
    as (_ & _ & [E | (l' & E & Hin & Hget)]).
  - simpl in E. rewrite E in Hsel. discriminate.
  - rewrite E in Hsel. injection Hsel as <-. split; assumption.
Qed.

Lemma mount_selects_only_catalogue_languages_witness :
  exists l,
    App.selectedLanguage (App.init "/" "?x=1&lang=br&lang=it") = Some l /\
    In l Constants.LANGUAGES /\
    Types.id l = "br".
Proof.
  destruct (App.selectedLanguage (App.init "/" "?x=1&lang=br&lang=it")) as [l|] eqn:E;
    [|vm_compute in E; discriminate].
  exists l. split; [reflexivity|].
  destruct (mount_selects_only_catalogue_languages
              {| App.selectedLanguage := None; App.pathname := "/"; App.search := "" |})
    as (_ & _ & _ & H).
  destruct (H "/" "?x=1&lang=br&lang=it" l E) as [Hin Hget].
  split; [exact Hin|].
  vm_compute in Hget. injection Hget as Hid. symmetry. exact Hid.
Defined.

(** ** Audio contexts and connecting (src/components/LiveTutor.tsx) *)

Lemma ensureAudioContexts_again (b : Browser) (s : State) :
  snd (ensureAudioContexts b s) = true ->
  forall b', ensureAudioContexts b' (fst (ensureAudioContexts b s))
             = (fst (ensureAudioContexts b s), true).
Proof.
  destruct s as [h [i o n srcs l p st c] w].
  destruct b as [fresh_state in_throws out_throws resume_ok gum_ok throws].
  destruct i as [[]|], o as [[]|], fresh_state, in_throws, out_throws, resume_ok; cbv;
    intros H b'; try discriminate; reflexivity.
Qed.

(** X3.  When [ensureAudioContexts] completes, both contexts exist and neither is
    suspended, a context that existed has not been replaced by a new one,
    and calling it again, whatever the browser then answers, completes
    without changing anything.  It throws only where a context is missing
    and its constructor throws, or where resuming fails; a throwing
    constructor of the input context leaves everything as it was, and a
    throwing constructor of a missing output context makes the call throw
    as well. *)
Theorem ensureAudioContexts_establishes_contexts :
  forall (b : Browser) (s : State),
    let s1 := fst (ensureAudioContexts b s) in
    (snd (ensureAudioContexts b s) = true ->
       (exists ci, inputAudioContextRef (refs s1) = Some ci /\ ci <> suspended) /\
       (exists co, outputAudioContextRef (refs s1) = Some co /\ co <> suspended) /\
       (forall b', ensureAudioContexts b' s1 = (s1, true))) /\
    (snd (ensureAudioContexts b s) = false ->
       (inputAudioContextRef (refs s) = None /\ newInputContextThrows b = true) \/
       (outputAudioContextRef (refs s) = None /\ newOutputContextThrows b = true) \/
       resumeSucceeds b = false) /\
    (inputAudioContextRef (refs s) = None -> newInputContextThrows b = true ->
       ensureAudioContexts b s = (s, false)) /\
    (outputAudioContextRef (refs s) = None -> newOutputContextThrows b = true ->
       snd (ensureAudioContexts b s) = false) /\
    (forall c, inputAudioContextRef (refs s) = Some c -> c <> suspended ->
               inputAudioContextRef (refs s1) = Some c) /\
    (forall c, outputAudioContextRef (refs s) = Some c -> c <> suspended ->
               outputAudioContextRef (refs s1) = Some c).
Proof.
  intros b s s1.
  split.
  { intros Hok. split; [|split].
    - revert Hok. unfold s1.
      destruct s as [h [i o n srcs l p st c] w].
      destruct b as [fresh_state in_throws out_throws resume_ok gum_ok throws].
      destruct i as [[]|], o as [[]|], fresh_state, in_throws, out_throws, resume_ok; cbv;
        intros H; try discriminate; eexists; (split; [reflexivity|discriminate]).
    - revert Hok. unfold s1.
      destruct s as [h [i o n srcs l p st c] w].
      destruct b as [fresh_state in_throws out_throws resume_ok gum_ok throws].
      destruct i as [[]|], o as [[]|], fresh_state, in_throws, out_throws, resume_ok; cbv;
        intros H; try discriminate; eexists; (split; [reflexivity|discriminate]).
    - apply ensureAudioContexts_again. exact Hok. }
  split.
  { destruct s as [h [i o n srcs l p st c] w].
    destruct b as [fresh_state in_throws out_throws resume_ok gum_ok throws].
    destruct i as [[]|], o as [[]|], fresh_state, in_throws, out_throws, resume_ok; cbv;
      intros H; try discriminate;
      first [ left; split; reflexivity
            | right; left; split; reflexivity
            | right; right; reflexivity ]. }
  split.
  { intros Hi Ht. unfold ensureAudioContexts. rewrite Hi, Ht. reflexivity. }
  split.
  { destruct s as [h [i o n srcs l p st c] w].
    destruct b as [fresh_state in_throws out_throws resume_ok gum_ok throws].
    simpl. intros -> ->.
    destruct i as [[]|], fresh_state, in_throws, resume_ok; reflexivity. }
  split.
  - unfold s1.
    destruct s as [h [i o n srcs l p st c] w].
    destruct b as [fresh_state in_throws out_throws resume_ok gum_ok throws].
    intros c0 Hc Hn. simpl in Hc. subst i.
    destruct c0, o as [[]|], fresh_state, in_throws, out_throws, resume_ok; cbv; try reflexivity;
      exfalso; apply Hn; reflexivity.
  - unfold s1.
    destruct s as [h [i o n srcs l p st c] w].
    destruct b as [fresh_state in_throws out_throws resume_ok gum_ok throws].
    intros c0 Hc Hn. simpl in Hc. subst o.
    destruct c0, i as [[]|], fresh_state, in_throws, out_throws, resume_ok; cbv; try reflexivity;
      exfalso; apply Hn; reflexivity.
Qed.

Lemma ensureAudioContexts_establishes_contexts_witness :
  let s1 := fst (ensureAudioContexts Scenario.granting initial) in
  inputAudioContextRef (refs s1) = Some running /\
  outputAudioContextRef (refs s1) = Some running /\
  ensureAudioContexts Scenario.denying s1 = (s1, true) /\
  ensureAudioContexts Scenario.withoutInputContext initial = (initial, false) /\
  snd (ensureAudioContexts Scenario.withoutOutputContext initial) = false.
Proof.
  intros s1.
  destruct (ensureAudioContexts_establishes_contexts Scenario.granting initial)
    as (H & _).
  destruct (H eq_refl) as (_ & _ & Hagain).
  destruct (ensureAudioContexts_establishes_contexts Scenario.withoutInputContext initial)
    as (_ & _ & Hin & _).
  destruct (ensureAudioContexts_establishes_contexts Scenario.withoutOutputContext initial)
    as (_ & _ & _ & Hout & _).
  split; [reflexivity|]. split; [reflexivity|]. split; [apply Hagain|].
  split; [apply Hin; reflexivity | apply Hout; reflexivity].
Defined.

(** The connection [connectToLive] makes from the state [s], whose
    callbacks close over the texts of [s]. *)
Lemma connectToLive_starts (b : Browser) (language : Types.Language) (s : State) :
  isConnectingRef (refs s) = false ->
  isConnected (hooks s) = false ->
  snd (ensureAudioContexts b s) = true ->
  connectThrows b = false ->
  let s1 := fst (ensureAudioContexts b s) in
  let k := length (connections (world s)) in
  connectToLive b language s =
  setLiveSessionRef (Some k)
    (setConnections
       (connections (world s)
        ++ [ {| callbacks := {| renderUserText := currentLiveUserText (hooks s);
                                renderModelText := currentLiveModelText (hooks s);
                                renderLanguage := language |};
                socket := connecting;
                promise := pending;
                reactions := [] |} ])
       (log (LiveConnect k)
          (setVoiceStatus "Conectando..."
             (setVoiceError None (setIsConnectingRef true s1))))).
Proof.
  intros Hcg Hc Hok Hthrow s1 k. unfold connectToLive.
  rewrite Hcg, Hc. simpl orb. cbv iota.
  pose proof (ensureAudioContexts_frame b s) as (_ & Hw & _).
  fold s1 in Hw. unfold k. rewrite <- Hw. clear Hw.
  subst s1. destruct (ensureAudioContexts b s) as [s1 ok]. simpl in Hok. subst ok.
  rewrite Hthrow. reflexivity.
Qed.

(** X4.  Pressed while idle, with the audio contexts available and the call not
    throwing, [connectToLive] makes exactly one connection: it is appended
    to the connections, pending, with callbacks that close over the two
    accumulators as they are now; the session ref names it; the session is
    marked as connecting, the error shown is cleared, and nothing of the
    capture or playback state is touched. *)
Theorem connect_starts_one_pending_connection :
  forall (b : Browser) (language : Types.Language) (s : State),
    isConnectingRef (refs s) = false ->
    isConnected (hooks s) = false ->
    snd (ensureAudioContexts b s) = true ->
    connectThrows b = false ->
    let s' := connectToLive b language s in
    let k := length (connections (world s)) in
    let new := {| callbacks := {| renderUserText := currentLiveUserText (hooks s);
                                  renderModelText := currentLiveModelText (hooks s);
                                  renderLanguage := language |};
                  socket := connecting;
                  promise := pending;
                  reactions := [] |} in
    connections (world s') = connections (world s) ++ [new] /\
    liveSessionRef (refs s') = Some k /\
    connections (world s') !! k = Some new /\
    effects (world s') = effects (world s) ++ [LiveConnect k] /\
    isConnectingRef (refs s') = true /\
    isConnected (hooks s') = false /\
    voiceError (hooks s') = None /\
    voiceStatus (hooks s') = "Conectando..." /\
    streamRef (refs s') = streamRef (refs s) /\
    scriptProcessorRef (refs s') = scriptProcessorRef (refs s) /\
    sourcesRef (refs s') = sourcesRef (refs s) /\
    nextStartTimeRef (refs s') = nextStartTimeRef (refs s).
Proof.
  intros b language s Hcg Hc Hok Hthrow s' k new.
  pose proof (connectToLive_starts b language s Hcg Hc Hok Hthrow) as E.
  cbv zeta in E. fold k in E. fold new in E.
  pose proof (ensureAudioContexts_frame b s) as (Hh & Hw & Hn & Hsrc & _ & Hp & Hst & _).
  unfold s'. rewrite E. simpl. rewrite Hw, Hh, Hn, Hsrc, Hp, Hst, Hc.
  repeat split.
  unfold k. rewrite lookup_app_r by reflexivity.
  rewrite Nat.sub_diag. reflexivity.
Qed.

Lemma connect_starts_one_pending_connection_witness :
  let s := setMode voice initial in
  let s' := connectToLive Scenario.granting Scenario.italian s in
  liveSessionRef (refs s') = Some 0%nat /\
  effects (world s') = [LiveConnect 0] /\
  isConnectingRef (refs s') = true.
Proof.
  intros s s'.
  destruct (connect_starts_one_pending_connection Scenario.granting Scenario.italian s
              eq_refl eq_refl eq_refl eq_refl)
    as (_ & H2 & _ & H4 & H5 & _).
  split; [exact H2|]. split; [exact H4 | exact H5].
Defined.

(** X5.  A connection attempt that fails, because the audio contexts cannot be
    resumed or because the call throws, makes no connection, leaves the
    session neither connecting nor connected, and shows an error; so the
    next press, with the browser cooperating, connects and clears the
    error. *)
Theorem failed_connect_can_be_retried :
  forall (b : Browser) (language : Types.Language) (s : State),
    isConnectingRef (refs s) = false ->
    isConnected (hooks s) = false ->
    snd (ensureAudioContexts b s) = false \/ connectThrows b = true ->
    let s' := connectToLive b language s in
    world s' = world s /\
    liveSessionRef (refs s') = liveSessionRef (refs s) /\
    isConnectingRef (refs s') = false /\
    isConnected (hooks s') = false /\
    voiceError (hooks s') =
      Some (if snd (ensureAudioContexts b s)
            then "Falha ao iniciar servidor"
            else "Permissão de áudio necessária.") /\
    forall b',
      snd (ensureAudioContexts b' s') = true ->
      connectThrows b' = false ->
      let s'' := connectToLive b' language s' in
      effects (world s'') =
        effects (world s) ++ [LiveConnect (length (connections (world s)))] /\
      voiceError (hooks s'') = None /\
      isConnectingRef (refs s'') = true.
Proof.
  intros b language s Hcg Hc Hfail s'.
  pose proof (ensureAudioContexts_frame b s) as (Hh & Hw & _ & _ & Hl & _ & _ & Hcg1).
  assert (E : s' = if snd (ensureAudioContexts b s)
                   then setIsConnectingRef false
                          (setVoiceError (Some "Falha ao iniciar servidor")
                             (setVoiceStatus "Conectando..."
                                (setVoiceError None
                                   (setIsConnectingRef true (fst (ensureAudioContexts b s))))))
                   else setVoiceError (Some "Permissão de áudio necessária.")
                          (fst (ensureAudioContexts b s))).
  { unfold s', connectToLive. rewrite Hcg, Hc. simpl orb. cbv iota.
    destruct (ensureAudioContexts b s) as [s1 [|]]; simpl; [|reflexivity].
    destruct Hfail as [Hfail | ->]; [discriminate Hfail | reflexivity]. }
  assert (F : world s' = world s /\
              liveSessionRef (refs s') = liveSessionRef (refs s) /\
              isConnectingRef (refs s') = false /\
              isConnected (hooks s') = false /\
              voiceError (hooks s') =
                Some (if snd (ensureAudioContexts b s)
                      then "Falha ao iniciar servidor"
                      else "Permissão de áudio necessária.")).
  { rewrite E. destruct (snd (ensureAudioContexts b s)); simpl;
      rewrite ?Hw, ?Hl, ?Hh, ?Hcg1, ?Hc, ?Hcg; repeat split. }
  destruct F as (F1 & F2 & F3 & F4 & F5).
  split; [exact F1|]. split; [exact F2|]. split; [exact F3|].
  split; [exact F4|]. split; [exact F5|].
  intros b' Hok' Hthrow' s''.
  pose proof (connectToLive_starts b' language s' F3 F4 Hok' Hthrow') as E'.
  cbv zeta in E'. unfold s''. rewrite E'. simpl.
  pose proof (ensureAudioContexts_frame b' s') as (_ & Hw' & _).
  rewrite Hw', F1. repeat split.
Qed.

Lemma failed_connect_can_be_retried_witness :
  let refusing := {| newContextState := suspended;
                     newInputContextThrows := false;
                     newOutputContextThrows := false;
                     resumeSucceeds := false;
                     getUserMediaGranted := true;
                     connectThrows := false |} in
  let s := setMode voice initial in
  let s' := connectToLive refusing Scenario.italian s in
  voiceError (hooks s') = Some "Permissão de áudio necessária." /\
  isConnectingRef (refs s') = false /\
  effects (world (connectToLive Scenario.granting Scenario.italian s')) = [LiveConnect 0].
Proof.
  intros refusing s s'.
  destruct (failed_connect_can_be_retried refusing Scenario.italian s
              eq_refl eq_refl (or_introl eq_refl))
    as (_ & _ & H3 & _ & H5 & Hretry).
  split; [exact H5|]. split; [exact H3|].
  assert (Hok : snd (ensureAudioContexts Scenario.granting s') = true)
    by (vm_compute; reflexivity).
  exact (proj1 (Hretry Scenario.granting Hok eq_refl)).
Defined.

(** X6.  When the socket closes or fails, nothing outside the component is
    called: the stream, the processor and the session ref are kept as they
    are (the microphone flag is reset on close but not on error).  The
    session is then neither connected nor connecting, so the next press of
    the button makes a new connection and moves the session ref to it. *)
Theorem reconnect_after_close_or_error :
  forall (b : Browser) (language : Types.Language) (s : State) (failed : bool),
    let s1 := if failed then onerror s else onclose s in
    snd (ensureAudioContexts b s1) = true ->
    connectThrows b = false ->
    let s2 := toggleMic b language s1 in
    world s1 = world s /\
    streamRef (refs s1) = streamRef (refs s) /\
    scriptProcessorRef (refs s1) = scriptProcessorRef (refs s) /\
    liveSessionRef (refs s1) = liveSessionRef (refs s) /\
    isConnected (hooks s1) = false /\
    isMicOn (hooks s1) = (if failed then isMicOn (hooks s) else false) /\
    effects (world s2) =
      effects (world s) ++ [LiveConnect (length (connections (world s)))] /\
    liveSessionRef (refs s2) = Some (length (connections (world s))) /\
    streamRef (refs s2) = streamRef (refs s) /\
    processors (world s2) = processors (world s).
Proof.
  intros b language s failed s1 Hok Hthrow s2.
  assert (F : world s1 = world s /\
              streamRef (refs s1) = streamRef (refs s) /\
              scriptProcessorRef (refs s1) = scriptProcessorRef (refs s) /\
              liveSessionRef (refs s1) = liveSessionRef (refs s) /\
              isConnected (hooks s1) = false /\
              isMicOn (hooks s1) = (if failed then isMicOn (hooks s) else false) /\
              isConnectingRef (refs s1) = false).
  { unfold s1. destruct failed; simpl; repeat split. }
  destruct F as (F1 & F2 & F3 & F4 & F5 & F6 & F7).
  repeat (split; [assumption|]).
  assert (E2 : s2 = connectToLive b language s1).
  { unfold s2, toggleMic. rewrite F5. reflexivity. }
  pose proof (connectToLive_starts b language s1 F7 F5 Hok Hthrow) as E.
  cbv zeta in E. rewrite E2, E. simpl.
  pose proof (ensureAudioContexts_frame b s1) as (_ & Hw & _ & _ & _ & _ & Hst & _).
  rewrite Hw, Hst, F1, F2. repeat split.
Qed.

Lemma reconnect_after_close_or_error_witness :
  let s1 := onclose Scenario.listening in
  let s2 := toggleMic Scenario.granting Scenario.italian s1 in
  streamRef (refs s1) = streamRef (refs Scenario.listening) /\
  liveSessionRef (refs s2) = Some (length (connections (world Scenario.listening))) /\
  processors (world s2) = processors (world Scenario.listening).
Proof.
  intros s1 s2.
  assert (Hok : snd (ensureAudioContexts Scenario.granting
                       (if false then onerror Scenario.listening
                        else onclose Scenario.listening)) = true)
    by (vm_compute; reflexivity).
  destruct (reconnect_after_close_or_error Scenario.granting Scenario.italian
              Scenario.listening false Hok eq_refl)
    as (_ & H2 & _ & _ & _ & _ & _ & H8 & _ & H10).
  split; [exact H2|]. split; [exact H8 | exact H10].
Defined.

(** ** The microphone (src/components/LiveTutor.tsx) *)

Lemma ensureAudioContexts_ready (b : Browser) (s : State) (ci co : AudioContextState) :
  inputAudioContextRef (refs s) = Some ci -> ci <> suspended ->
  outputAudioContextRef (refs s) = Some co -> co <> suspended ->
  ensureAudioContexts b s = (s, true).
Proof.
  destruct s as [h [i o n srcs l p st c] w]. simpl.
  intros -> Hi -> Ho.
  destruct ci, co; try (exfalso; apply Hi; reflexivity);
    try (exfalso; apply Ho; reflexivity); reflexivity.
Qed.

Lemma ensureAudioContexts_contexts (b : Browser) (s : State) :
  snd (ensureAudioContexts b s) = true ->
  exists ci co,
    inputAudioContextRef (refs (fst (ensureAudioContexts b s))) = Some ci /\
    ci <> suspended /\
    outputAudioContextRef (refs (fst (ensureAudioContexts b s))) = Some co /\
    co <> suspended.
Proof.
  destruct s as [h [i o n srcs l p st c] w].
  destruct b as [fresh_state in_throws out_throws resume_ok gum_ok throws].
  destruct i as [[]|], o as [[]|], fresh_state, in_throws, out_throws, resume_ok; cbv;
    intros H; try discriminate;
    do 2 eexists; repeat split; try reflexivity; discriminate.
Qed.

(** What switching the microphone on does. *)
Lemma toggleMic_on (b : Browser) (language : Types.Language) (s : State) :
  isConnected (hooks s) = true ->
  isMicOn (hooks s) = false ->
  snd (ensureAudioContexts b s) = true ->
  getUserMediaGranted b = true ->
  let f := fresh (world s) in
  let s1 := toggleMic b language s in
  hooks s1 = hooks (setVoiceStatus "Ouvindo..." (setIsMicOn true s)) /\
  streamRef (refs s1) = Some f /\
  scriptProcessorRef (refs s1) = Some (S f) /\
  inputAudioContextRef (refs s1)
    = inputAudioContextRef (refs (fst (ensureAudioContexts b s))) /\
  outputAudioContextRef (refs s1)
    = outputAudioContextRef (refs (fst (ensureAudioContexts b s))) /\
  liveSessionRef (refs s1) = liveSessionRef (refs s) /\
  connections (world s1) = connections (world s) /\
  processors (world s1) = processors (world s) ++ [S f] /\
  fresh (world s1) = S (S f) /\
  effects (world s1) = effects (world s) ++ [GetUserMedia f; ProcessorConnect (S f)].
Proof.
  intros Hc Hm Hok Hg f s1.
  destruct (ensureAudioContexts_contexts b s Hok) as (ci & co & Hi & _ & _ & _).
  pose proof (ensureAudioContexts_frame b s) as (Hh & Hw & _ & _ & Hl & _ & _ & _).
  unfold s1, toggleMic. rewrite Hc. simpl negb. cbv iota.
  destruct (ensureAudioContexts b s) as [se ok]. simpl in *. subst ok.
  rewrite Hm, Hg. unfold newObject. simpl. rewrite Hi. simpl.
  rewrite Hh, Hw, Hl. unfold f. rewrite <- app_assoc.
  repeat split; assumption.
Qed.

(** X7.  Switching the microphone on acquires one stream and wires one
    processor, beside any processor still wired; switching it off again
    stops the tracks of that stream and unwires that processor, so the two
    presses leave the session connected with the microphone off, no stream
    and no processor held, and the same processors wired as before. *)
Theorem microphone_on_then_off_releases :
  forall (b b' : Browser) (language : Types.Language) (s : State),
    isConnected (hooks s) = true ->
    isMicOn (hooks s) = false ->
    snd (ensureAudioContexts b s) = true ->
    getUserMediaGranted b = true ->
    Forall (fun p => (p < fresh (world s))%nat) (processors (world s)) ->
    let f := fresh (world s) in
    let s1 := toggleMic b language s in
    let s2 := toggleMic b' language s1 in
    isMicOn (hooks s1) = true /\
    voiceStatus (hooks s1) = "Ouvindo..." /\
    streamRef (refs s1) = Some f /\
    scriptProcessorRef (refs s1) = Some (S f) /\
    processors (world s1) = processors (world s) ++ [S f] /\
    effects (world s1) = effects (world s) ++ [GetUserMedia f; ProcessorConnect (S f)] /\
    isConnected (hooks s2) = true /\
    isMicOn (hooks s2) = false /\
    voiceStatus (hooks s2) = "Microfone pausado" /\
    streamRef (refs s2) = None /\
    scriptProcessorRef (refs s2) = None /\
    processors (world s2) = processors (world s) /\
    effects (world s2) =
      effects (world s)
      ++ [GetUserMedia f; ProcessorConnect (S f); TrackStop f; ProcessorDisconnect (S f)].
Proof.
  intros b b' language s Hc Hm Hok Hg Hps f s1 s2.
  destruct (toggleMic_on b language s Hc Hm Hok Hg)
    as (Hh & Hst & Hp & Hi & Ho & _ & _ & Hprocs & _ & He).
  fold f in Hst, Hp, Hprocs, He. fold s1 in Hh, Hst, Hp, Hi, Ho, Hprocs, He.
  destruct (ensureAudioContexts_contexts b s Hok) as (ci & co & Hci & Hnci & Hco & Hnco).
  rewrite Hci in Hi. rewrite Hco in Ho.
  assert (Hc1 : isConnected (hooks s1) = true) by (rewrite Hh; simpl; exact Hc).
  assert (Hm1 : isMicOn (hooks s1) = true) by (rewrite Hh; reflexivity).
  assert (E : s2 = setVoiceStatus "Microfone pausado"
                     (setIsMicOn false
                        (setScriptProcessorRef None
                           (setProcessors
                              (List.filter (fun x => negb (x =? S f)%nat)
                                           (processors (world s1)))
                              (log (ProcessorDisconnect (S f))
                                 (setStreamRef None (log (TrackStop f) s1))))))).
  { unfold s2, toggleMic. rewrite Hc1. simpl negb. cbv iota.
    rewrite (ensureAudioContexts_ready b' s1 ci co Hi Hnci Ho Hnco).
    rewrite Hm1, Hst. simpl. rewrite Hp. reflexivity. }
  split; [exact Hm1|]. split; [rewrite Hh; reflexivity|].
  split; [exact Hst|]. split; [exact Hp|]. split; [exact Hprocs|]. split; [exact He|].
  rewrite E. simpl. rewrite Hh, He, Hprocs. simpl.
  repeat split; try assumption.
  - rewrite List.filter_app. simpl. rewrite Nat.eqb_refl. simpl. rewrite app_nil_r.
    apply forallb_filter_id. apply forallb_forall. intros x Hx.
    rewrite List.Forall_forall in Hps. specialize (Hps x Hx).
    apply negb_true_iff. apply Nat.eqb_neq. unfold f. lia.
  - rewrite <- !app_assoc. reflexivity.
Qed.

Lemma microphone_on_then_off_releases_witness :
  let s1 := toggleMic Scenario.granting Scenario.italian Scenario.connected in
  let s2 := toggleMic Scenario.denying Scenario.italian s1 in
  streamRef (refs s1) = Some (fresh (world Scenario.connected)) /\
  streamRef (refs s2) = None /\
  scriptProcessorRef (refs s2) = None /\
  processors (world s2) = processors (world Scenario.connected).
Proof.
  intros s1 s2.
  assert (Hc : isConnected (hooks Scenario.connected) = true) by (vm_compute; reflexivity).
  assert (Hm : isMicOn (hooks Scenario.connected) = false) by (vm_compute; reflexivity).
  assert (Hok : snd (ensureAudioContexts Scenario.granting Scenario.connected) = true)
    by (vm_compute; reflexivity).
  assert (Hps : Forall (fun p => (p < fresh (world Scenario.connected))%nat)
                       (processors (world Scenario.connected)))
    by (vm_compute; constructor).
  destruct (microphone_on_then_off_releases Scenario.granting Scenario.denying
              Scenario.italian Scenario.connected Hc Hm Hok eq_refl Hps)
    as (_ & _ & H3 & _ & _ & _ & _ & _ & _ & H10 & H11 & H12 & _).
  split; [exact H3|]. split; [exact H10|]. split; [exact H11 | exact H12].
Defined.

(** ** Server messages after teardown, and the speaking indicator *)

Lemma disconnectVoice_output_context (s : State) :
  outputAudioContextRef (refs (disconnectVoice s)) = None.
Proof.
  destruct s as [h [i o n srcs l p st c] w].
  destruct st, i, o; reflexivity.
Qed.

Lemma disconnectVoice_model_text (s : State) :
  currentLiveModelText (hooks (disconnectVoice s)) = "".
Proof.
  destruct s as [h [i o n srcs l p st c] w].
  destruct st, i, o; reflexivity.
Qed.

(** Without an output context, a message that is not an interruption plays
    nothing; a transcript delta of the tutor it carries is accumulated all
    the same. *)
Lemma onmessage_without_output_context (au : AudioUtils) (clock : Clock) (r : Render)
    (m : LiveServerMessage) (s : State) :
  interrupted m = false ->
  outputAudioContextRef (refs s) = None ->
  refs (onmessage au clock r m s) = refs s /\
  world (onmessage au clock r m s) = world s /\
  forall t,
    outputTranscription m = Some t -> JS.truthy t = true -> turnComplete m = false ->
    currentLiveModelText (hooks (onmessage au clock r m s))
    = (currentLiveModelText (hooks s) ++ t)%string.
Proof.
  intros Hi Hctx.
  assert (Hp : playAudio au clock m s = (s, true)).
  { unfold playAudio. rewrite Hctx. destruct (inlineData m); reflexivity. }
  destruct (onmessage_not_interrupted au clock r m s Hi) as [Hr Hw].
  rewrite Hp in Hr, Hw. simpl in Hr, Hw.
  split; [exact Hr|]. split; [exact Hw|].
  intros t Ht Htt Htc.
  unfold onmessage. rewrite Hp.
  rewrite handleInterrupted_not by assumption.
  unfold commitTurn. rewrite Htc.
  unfold handleTranscription. rewrite Ht, Htt.
  destruct (inputTranscription m) as [u|]; [destruct (JS.truthy u)|]; reflexivity.
Qed.

(** X8.  After teardown the connection is still delivering messages, but no
    message that is not an interruption plays anything any more: audio it
    carries is skipped for want of an output context, so the refs, the
    cursor among them, and everything outside the component stay as
    teardown left them.  Its transcript deltas are still accumulated. *)
Theorem no_playback_after_teardown :
  forall (au : AudioUtils) (clock : Clock) (r : Render) (m : LiveServerMessage) (s : State),
    interrupted m = false ->
    let s0 := disconnectVoice s in
    let s' := onmessage au clock r m s0 in
    refs s' = refs s0 /\
    world s' = world s0 /\
    forall t,
      outputTranscription m = Some t -> JS.truthy t = true -> turnComplete m = false ->
      currentLiveModelText (hooks s') = t.
Proof.
  intros au clock r m s Hi s0 s'.
  destruct (onmessage_without_output_context au clock r m s0 Hi
              (disconnectVoice_output_context s)) as (Hr & Hw & Ht).
  split; [exact Hr|]. split; [exact Hw|].
  intros t H1 H2 H3. unfold s'. rewrite (Ht t H1 H2 H3).
  unfold s0. rewrite disconnectVoice_model_text. reflexivity.
Qed.

Lemma no_playback_after_teardown_witness :
  let s0 := disconnectVoice Scenario.speaking in
  let s' := onmessage Scenario.au (Scenario.at_ 9) Scenario.firstRender
              (AudioChunk "AAAAAAAA") s0 in
  refs s' = refs s0 /\ world s' = world s0.
Proof.
  intros s0 s'.
  destruct (no_playback_after_teardown Scenario.au (Scenario.at_ 9) Scenario.firstRender
              (AudioChunk "AAAAAAAA") Scenario.speaking eq_refl)
    as (H1 & H2 & _).
  split; [exact H1 | exact H2].
Defined.

Lemma playAudio_hooks (au : AudioUtils) (clock : Clock) (m : LiveServerMessage) (s : State) :
  hooks (fst (playAudio au clock m s)) = hooks s.
Proof.
  unfold playAudio.
  destruct (inlineData m) as [data|]; [|reflexivity].
  destruct (outputAudioContextRef (refs s)); [|reflexivity].
  destruct (JS.truthy data); [|reflexivity].
  destruct (decodedDuration au data); reflexivity.
Qed.

(** X9.  The speaking indicator after a message: an interruption or a turn
    completion switches it off, otherwise a transcript delta of the tutor
    that is not empty switches it on, otherwise it is as before; it is also
    as before when the decoding of the audio rejects.  While it is on, the
    main button reads "Ouvindo IA...", whatever the microphone does. *)
Theorem speaking_indicator_after_message :
  forall (au : AudioUtils) (clock : Clock) (r : Render) (m : LiveServerMessage) (s : State),
    let s' := onmessage au clock r m s in
    isAiSpeaking s' =
      (if snd (playAudio au clock m s) then
         if interrupted m then false
         else if turnComplete m then false
         else if JS.truthyOpt (outputTranscription m) then true
         else isAiSpeaking s
       else isAiSpeaking s) /\
    (isAiSpeaking s' = true -> mainButtonLabel s' = "Ouvindo IA...").
Proof.
  intros au clock r m s s'.
  split.
  - unfold s', onmessage, isAiSpeaking.
    pose proof (playAudio_hooks au clock m s) as Hh.
    destruct (playAudio au clock m s) as [s1 [|]]; simpl in *; [|rewrite Hh; reflexivity].
    unfold handleInterrupted.
    destruct (interrupted m); [reflexivity|].
    unfold commitTurn.
    destruct (turnComplete m).
    + destruct (JS.truthy (JS.trim (renderUserText r))),
               (JS.truthy (JS.trim (renderModelText r))); reflexivity.
    + unfold handleTranscription.
      destruct (outputTranscription m) as [o|]; simpl.
      * destruct (JS.truthy o); simpl.
        -- reflexivity.
        -- destruct (inputTranscription m) as [i|]; [destruct (JS.truthy i)|];
             simpl; rewrite Hh; reflexivity.
      * destruct (inputTranscription m) as [i|]; [destruct (JS.truthy i)|];
          simpl; rewrite Hh; reflexivity.
  - unfold mainButtonLabel. intros ->. reflexivity.
Qed.

(** ** Sources that end *)

(** X10.  When a source ends it leaves the set and the others stay, in their
    order; an interruption that follows stops the others and not the one
    that has ended.  The end of a source that is not in the set changes
    nothing. *)
Theorem ended_source_is_not_stopped :
  forall (au : AudioUtils) (clock : Clock) (r : Render) (source : nat) (s : State),
    let s1 := onended source s in
    let s2 := onmessage au clock r Interrupted s1 in
    ~ In source (sourcesRef (refs s1)) /\
    (forall x, x <> source -> (In x (sourcesRef (refs s1)) <-> In x (sourcesRef (refs s)))) /\
    (~ In source (sourcesRef (refs s)) -> s1 = s) /\
    world s1 = world s /\
    effects (world s2) =
      effects (world s)
      ++ map SourceStop (List.filter (fun x => negb (x =? source)%nat) (sourcesRef (refs s))) /\
    ~ In (SourceStop source) (skipn (length (effects (world s))) (effects (world s2))).
Proof.
  intros au clock r source s s1 s2.
  assert (Hs1 : sourcesRef (refs s1)
                = List.filter (fun x => negb (x =? source)%nat) (sourcesRef (refs s)))
    by reflexivity.
  assert (He : effects (world s2) =
               effects (world s) ++ map SourceStop (sourcesRef (refs s1))).
  { unfold s2, onmessage. rewrite playAudio_no_audio by reflexivity.
    unfold handleInterrupted. simpl interrupted. cbv iota.
    unfold commitTurn, handleTranscription. simpl.
    destruct (stopAll_fold (sourcesRef (refs s1)) s1) as (_ & _ & _ & _ & _ & E).
    fold (stopAll s1) in E. rewrite E. reflexivity. }
  split.
  { rewrite Hs1. intros Hin. apply List.filter_In in Hin as [_ Hneq].
    rewrite Nat.eqb_refl in Hneq. discriminate. }
  split.
  { intros x Hx. rewrite Hs1. rewrite List.filter_In. split.
    - intros [H _]. exact H.
    - intros H. split; [exact H|]. apply negb_true_iff. now apply Nat.eqb_neq. }
  split.
  { intros Hnot. unfold s1, onended.
    assert (E : List.filter (fun x => negb (x =? source)%nat) (sourcesRef (refs s))
                = sourcesRef (refs s)).
    { apply forallb_filter_id. apply forallb_forall. intros x Hx.
      apply negb_true_iff. apply Nat.eqb_neq. intros ->. contradiction. }
    rewrite E. destruct s as [h [i o n srcs l p st c] w]. reflexivity. }
  split; [reflexivity|].
  split; [rewrite He, Hs1; reflexivity|].
  rewrite He, Hs1. rewrite skipn_app, Nat.sub_diag, skipn_all. simpl.
  intros Hin. apply in_map_iff in Hin as (x & Hx & Hin).
  injection Hx as ->. apply List.filter_In in Hin as [_ Hneq].
  rewrite Nat.eqb_refl in Hneq. discriminate.
Qed.

(** ** What holds of every run of the component *)

Lemma quiet_refl (s : State) : quiet s s.
Proof.
  split; [reflexivity|]. split; [reflexivity|]. split; [lia|].
  exists []. rewrite app_nil_r. split; [reflexivity|constructor].
Qed.

Lemma quiet_trans (s1 s2 s3 : State) : quiet s1 s2 -> quiet s2 s3 -> quiet s1 s3.
Proof.
  intros (Hn & Hs & Hf & a & Ha & Hb) (Hn' & Hs' & Hf' & a' & Ha' & Hb').
  split; [congruence|]. split; [congruence|]. split; [lia|].
  exists (a ++ a'). split.
  - rewrite Ha', Ha, app_assoc. reflexivity.
  - apply Forall_app; split; assumption.
Qed.

Lemma quiet_same (s0 s s' : State) :
  quiet s0 s ->
  nextStartTimeRef (refs s') = nextStartTimeRef (refs s) ->
  sourcesRef (refs s') = sourcesRef (refs s) ->
  fresh (world s') = fresh (world s) ->
  effects (world s') = effects (world s) ->
  quiet s0 s'.
Proof.
  intros Hq Hn Hs Hf He. apply (quiet_trans _ s); [exact Hq|].
  split; [exact Hn|]. split; [exact Hs|]. split; [lia|].
  exists []. rewrite app_nil_r. split; [exact He|constructor].
Qed.

Lemma quiet_log (s0 s : State) (e : Effect) :
  isSourceEffect e = false /\ isSessionClose e = false ->
  quiet s0 s -> quiet s0 (log e s).
Proof.
  intros He Hq. apply (quiet_trans _ s); [exact Hq|].
  split; [reflexivity|]. split; [reflexivity|]. split; [simpl; lia|].
  exists [e]. split; [reflexivity|]. constructor; [exact He|constructor].
Qed.

Lemma quiet_setFresh (s0 s : State) :
  quiet s0 s -> quiet s0 (setFresh (S (fresh (world s))) s).
Proof.
  intros Hq. apply (quiet_trans _ s); [exact Hq|].
  split; [reflexivity|]. split; [reflexivity|]. split; [simpl; lia|].
  exists []. rewrite app_nil_r. split; [reflexivity|constructor].
Qed.

Lemma quiet_ensureAudioContexts (s0 : State) (b : Browser) (s : State) :
  quiet s0 s -> quiet s0 (fst (ensureAudioContexts b s)).
Proof.
  intros Hq.
  pose proof (ensureAudioContexts_frame b s) as (_ & Hw & Hn & Hs & _).
  apply (quiet_same s0 s);
    [exact Hq | exact Hn | exact Hs | now rewrite Hw | now rewrite Hw].
Qed.

Lemma quiet_sends (s0 : State) (k : nat) (l : list string) (s : State) :
  quiet s0 s ->
  quiet s0 (fold_left (fun acc data => log (SendRealtimeInput k data) acc) l s).
Proof.
  revert s. induction l as [|x l IH]; intros s Hq; simpl; [exact Hq|].
  apply IH. apply quiet_log; [split; reflexivity | exact Hq].
Qed.

(** Peels the setters and trace extensions off the target of [quiet]. *)
Ltac quiet_chain :=
  repeat first
    [ assumption
    | apply quiet_refl
    | apply quiet_log; [split; reflexivity|]
    | apply quiet_setFresh
    | apply quiet_ensureAudioContexts
    | apply quiet_sends
    | match goal with
      | |- quiet _ (_ _ _ ?x) =>
          apply (quiet_same _ x); [|reflexivity|reflexivity|reflexivity|reflexivity]
      | |- quiet _ (_ _ ?x) =>
          apply (quiet_same _ x); [|reflexivity|reflexivity|reflexivity|reflexivity]
      end ].

Lemma quiet_connectToLive (s0 : State) (b : Browser) (language : Types.Language) (s : State) :
  quiet s0 s -> quiet s0 (connectToLive b language s).
Proof.
  intros Hq. unfold connectToLive.
  destruct (isConnectingRef (refs s) || isConnected (hooks s)); [exact Hq|].
  pose proof (quiet_ensureAudioContexts s0 b s Hq) as Hq1.
  destruct (ensureAudioContexts b s) as [s1 [|]]; simpl in Hq1; [|quiet_chain].
  destruct (connectThrows b); quiet_chain.
Qed.

Lemma quiet_toggleMic (s0 : State) (b : Browser) (language : Types.Language) (s : State) :
  quiet s0 s -> quiet s0 (toggleMic b language s).
Proof.
  intros Hq. unfold toggleMic.
  destruct (negb (isConnected (hooks s))); [now apply quiet_connectToLive|].
  pose proof (quiet_ensureAudioContexts s0 b s Hq) as Hq1.
  destruct (ensureAudioContexts b s) as [s1 [|]]; simpl in Hq1; [|exact Hq1].
  destruct (isMicOn (hooks s)).
  - destruct (streamRef (refs s1)) as [stream|].
    + simpl. destruct (scriptProcessorRef (refs s1)) as [p|]; quiet_chain.
    + destruct (scriptProcessorRef (refs s1)) as [p|]; quiet_chain.
  - destruct (getUserMediaGranted b); [|quiet_chain].
    unfold newObject. simpl.
    destruct (inputAudioContextRef (refs s1)); quiet_chain.
Qed.

Lemma quiet_disconnectVoice (s0 s : State) : quiet s0 s -> quiet s0 (disconnectVoice s).
Proof.
  intros Hq. unfold disconnectVoice, closeContext.
  destruct (streamRef (refs s)) as [stream|];
    simpl; destruct (inputAudioContextRef (refs s));
    simpl; destruct (outputAudioContextRef (refs s)); quiet_chain.
Qed.

Lemma quiet_settle (s0 : State) (k : nat) (ok : bool) (s : State) :
  quiet s0 s -> quiet s0 (settle k ok s).
Proof.
  intros Hq. unfold settle.
  destruct (connections (world s) !! k) as [c|]; [|exact Hq].
  destruct (promise c); try exact Hq.
  destruct ok; unfold updateConnection; quiet_chain.
Qed.

Lemma quiet_onaudioprocess (s0 : State) (au : AudioUtils) (d : list Q) (s : State) :
  quiet s0 s -> quiet s0 (onaudioprocess au d s).
Proof.
  intros Hq. unfold onaudioprocess, thenSend.
  destruct (liveSessionRef (refs s)) as [k|]; [|exact Hq].
  destruct (connections (world s) !! k) as [c|]; [|exact Hq].
  destruct (promise c); unfold updateConnection; quiet_chain.
Qed.

(** Every event but a server message and the end of a source is quiet. *)
Lemma quiet_step (au : AudioUtils) (language : Types.Language) (s : State) (e : Event) :
  match e with
  | SocketMessage _ _ _ | Ended _ => True
  | _ => quiet s (step au language s e)
  end.
Proof.
  destruct e as [b|m|k|k clock msg|k|k|k ok|p d|src]; simpl; try exact I.
  - destruct (mode (hooks s)); [apply quiet_refl|].
    apply quiet_toggleMic, quiet_refl.
  - unfold switchMode. destruct m.
    + apply (quiet_same s (disconnectVoice s)); try reflexivity.
      apply quiet_disconnectVoice, quiet_refl.
    + apply (quiet_same s s); try reflexivity. apply quiet_refl.
  - destruct (connections (world s) !! k); [|apply quiet_refl].
    unfold onopen, updateConnection. quiet_chain.
  - destruct (connections (world s) !! k); [|apply quiet_refl].
    unfold onclose, updateConnection. quiet_chain.
  - destruct (connections (world s) !! k); [|apply quiet_refl].
    unfold onerror, updateConnection. quiet_chain.
  - apply quiet_settle, quiet_refl.
  - destruct (existsb (Nat.eqb p) (processors (world s))); [|apply quiet_refl].
    apply quiet_onaudioprocess, quiet_refl.
Qed.

Lemma stoppedSources_app (l l' : list Effect) :
  stoppedSources (l ++ l') = stoppedSources l ++ stoppedSources l'.
Proof. unfold stoppedSources. apply flat_map_app. Qed.

Lemma stoppedSources_In (x : nat) (l : list Effect) :
  In x (stoppedSources l) <-> In (SourceStop x) l.
Proof.
  unfold stoppedSources. rewrite in_flat_map. split.
  - intros (e & He & Hx). destruct e; simpl in Hx; try contradiction.
    destruct Hx as [<-|[]]. exact He.
  - intros H. exists (SourceStop x). split; [exact H|]. simpl. auto.
Qed.

Lemma stoppedSources_stops (l : list nat) : stoppedSources (map SourceStop l) = l.
Proof.
  induction l as [|x l IH]; [reflexivity|].
  change (stoppedSources (map SourceStop (x :: l)))
    with (x :: stoppedSources (map SourceStop l)).
  rewrite IH. reflexivity.
Qed.

Lemma stoppedSources_none (l : list Effect) :
  Forall (fun e => isSourceEffect e = false /\ isSessionClose e = false) l ->
  stoppedSources l = [].
Proof.
  induction 1 as [|e l [He _] _ IH]; [reflexivity|].
  change (stoppedSources (e :: l))
    with (match e with SourceStop x => [x] | _ => [] end ++ stoppedSources l).
  rewrite IH. destruct e; try reflexivity; discriminate.
Qed.

Lemma wellFormed_ext (s s' : State) :
  sourcesRef (refs s') = sourcesRef (refs s) ->
  fresh (world s') = fresh (world s) ->
  effects (world s') = effects (world s) ->
  sourcesWellFormed s -> sourcesWellFormed s'.
Proof.
  unfold sourcesWellFormed. intros -> -> ->. auto.
Qed.

Lemma quiet_wellFormed (s s' : State) :
  quiet s s' -> sourcesWellFormed s -> sourcesWellFormed s'.
Proof.
  intros (_ & Hs & Hf & added & Ha & Hb) (H1 & H2 & H3 & H4 & H5 & H6).
  unfold sourcesWellFormed. rewrite Hs, Ha.
  assert (Hno : forall x, ~ In (SourceStop x) added).
  { intros x Hin. rewrite List.Forall_forall in Hb.
    destruct (Hb _ Hin) as [Hsrc _]. discriminate. }
  split; [exact H1|]. split; [|split; [|split; [|split]]].
  - intros x Hx. specialize (H2 x Hx). lia.
  - intros x Hx. apply in_app_or in Hx as [Hx|Hx]; [|exfalso; exact (Hno x Hx)].
    destruct (H3 x Hx) as [Hlt Hnot]. split; [lia|exact Hnot].
  - intros x Hx. destruct (H4 x Hx) as (t & d & Hin).
    exists t, d. apply in_or_app. left. exact Hin.
  - intros x Hx. apply in_app_or in Hx as [Hx|Hx]; [|exfalso; exact (Hno x Hx)].
    destruct (H5 x Hx) as (t & d & Hin).
    exists t, d. apply in_or_app. left. exact Hin.
  - rewrite stoppedSources_app, (stoppedSources_none added Hb), app_nil_r. exact H6.
Qed.

Lemma playAudio_wellFormed (au : AudioUtils) (clock : Clock) (m : LiveServerMessage)
    (s : State) :
  sourcesWellFormed s -> sourcesWellFormed (fst (playAudio au clock m s)).
Proof.
  intros Hwf. unfold playAudio.
  destruct (inlineData m) as [data|]; [|exact Hwf].
  destruct (outputAudioContextRef (refs s)); [|exact Hwf].
  destruct (JS.truthy data); [|exact Hwf].
  destruct (decodedDuration au data) as [d|]; simpl.
  - destruct Hwf as (H1 & H2 & H3 & H4 & H5 & H6).
    set (f := fresh (world s)).
    set (t := Qmax (nextStartTimeRef (refs s)) (currentTime clock)).
    unfold sourcesWellFormed. simpl. fold f. fold t.
    split; [|split; [|split; [|split; [|split]]]].
    + apply NoDup_app. split; [exact H1|]. split; [|apply NoDup_singleton].
      intros x Hx Hf. apply list_elem_of_In in Hx. apply list_elem_of_In in Hf.
      destruct Hf as [<-|[]]. specialize (H2 _ Hx). unfold f in H2. lia.
    + intros x Hx. apply in_app_or in Hx as [Hx|[<-|[]]].
      * specialize (H2 x Hx). lia.
      * lia.
    + intros x Hx. apply in_app_or in Hx as [Hx|[Hx|[]]]; [|discriminate].
      destruct (H3 x Hx) as [Hlt Hnot]. split; [lia|].
      intros Hin. apply in_app_or in Hin as [Hin|[<-|[]]]; [contradiction|].
      unfold f in Hlt. lia.
    + intros x Hx. apply in_app_or in Hx as [Hx|[<-|[]]].
      * destruct (H4 x Hx) as (t' & d' & Hin). exists t', d'.
        apply in_or_app. left. exact Hin.
      * exists t, d. apply in_or_app. right. left. reflexivity.
    + intros x Hx. apply in_app_or in Hx as [Hx|[Hx|[]]]; [|discriminate].
      destruct (H5 x Hx) as (t' & d' & Hin). exists t', d'.
      apply in_or_app. left. exact Hin.
    + rewrite stoppedSources_app. simpl. rewrite app_nil_r. exact H6.
  - eapply wellFormed_ext; [| | |exact Hwf]; reflexivity.
Qed.

Lemma handleInterrupted_wellFormed (m : LiveServerMessage) (s : State) :
  sourcesWellFormed s -> sourcesWellFormed (handleInterrupted m s).
Proof.
  intros Hwf. unfold handleInterrupted.
  destruct (interrupted m); [|exact Hwf].
  destruct Hwf as (H1 & H2 & H3 & H4 & H5 & H6).
  destruct (stopAll_fold (sourcesRef (refs s)) s) as (_ & _ & _ & _ & Hf & He).
  fold (stopAll s) in Hf, He.
  unfold sourcesWellFormed. simpl. rewrite Hf, He.
  split; [constructor|]. split; [intros x []|].
  split; [|split; [intros x []|split]].
  - intros x Hx. split; [|intros []].
    apply in_app_or in Hx as [Hx|Hx].
    + apply (H3 x Hx).
    + apply in_map_iff in Hx as (y & Hy & Hin). injection Hy as ->. apply (H2 x Hin).
  - intros x Hx. apply in_app_or in Hx as [Hx|Hx].
    + destruct (H5 x Hx) as (t & d & Hin). exists t, d. apply in_or_app. left. exact Hin.
    + apply in_map_iff in Hx as (y & Hy & Hin). injection Hy as ->.
      destruct (H4 x Hin) as (t & d & Hin'). exists t, d. apply in_or_app. left. exact Hin'.
  - rewrite stoppedSources_app, stoppedSources_stops.
    apply NoDup_app. split; [exact H6|]. split; [|exact H1].
    intros x Hx Hin. apply list_elem_of_In in Hx. apply list_elem_of_In in Hin.
    apply stoppedSources_In in Hx. destruct (H3 x Hx) as [_ Hnot]. contradiction.
Qed.

Lemma onmessage_wellFormed (au : AudioUtils) (clock : Clock) (r : Render)
    (m : LiveServerMessage) (s : State) :
  sourcesWellFormed s -> sourcesWellFormed (onmessage au clock r m s).
Proof.
  intros Hwf. unfold onmessage.
  pose proof (playAudio_wellFormed au clock m s Hwf) as Hp.
  destruct (playAudio au clock m s) as [s1 [|]]; simpl in Hp; [|exact Hp].
  apply handleInterrupted_wellFormed.
  destruct (commitTurn_frame clock r m (handleTranscription m s1)) as [Hr Hw].
  destruct (handleTranscription_frame m s1) as (Hr' & Hw' & _).
  eapply wellFormed_ext; [| | |exact Hp].
  - rewrite Hr, Hr'. reflexivity.
  - rewrite Hw, Hw'. reflexivity.
  - rewrite Hw, Hw'. reflexivity.
Qed.

Lemma onended_wellFormed (source : nat) (s : State) :
  sourcesWellFormed s -> sourcesWellFormed (onended source s).
Proof.
  intros (H1 & H2 & H3 & H4 & H5 & H6). unfold sourcesWellFormed, onended. simpl.
  split; [|split; [|split; [|split; [|split]]]]; try assumption.
  - apply NoDup_ListNoDup, List.NoDup_filter, NoDup_ListNoDup. exact H1.
  - intros x Hx. apply List.filter_In in Hx as [Hx _]. auto.
  - intros x Hx. destruct (H3 x Hx) as [Hlt Hnot]. split; [exact Hlt|].
    intros Hin. apply List.filter_In in Hin as [Hin _]. contradiction.
  - intros x Hx. apply List.filter_In in Hx as [Hx _]. auto.
Qed.

Lemma step_wellFormed (au : AudioUtils) (language : Types.Language) (s : State) (e : Event) :
  sourcesWellFormed s -> sourcesWellFormed (step au language s e).
Proof.
  intros Hwf. pose proof (quiet_step au language s e) as Hq.
  destruct e as [b|m|k|k clock msg|k|k|k ok|p d|src];
    try (exact (quiet_wellFormed _ _ Hq Hwf)).
  - simpl. destruct (connections (world s) !! k); [|exact Hwf].
    now apply onmessage_wellFormed.
  - simpl. now apply onended_wellFormed.
Qed.

Lemma run_wellFormed (au : AudioUtils) (language : Types.Language)
    (events : list Event) (s : State) :
  sourcesWellFormed s -> sourcesWellFormed (run au language s events).
Proof.
  unfold run. revert s. induction events as [|e events IH]; intros s Hwf.
  - exact Hwf.
  - simpl. apply IH. now apply step_wellFormed.
Qed.

Lemma initial_wellFormed : sourcesWellFormed initial.
Proof.
  unfold sourcesWellFormed; simpl.
  split; [constructor|]. split; [intros x []|]. split; [intros x []|].
  split; [intros x []|]. split; [intros x []|constructor].
Qed.

(** X11.  In every state the component can reach, whatever the user, the browser
    and the remote end do, the set of scheduled sources holds no source
    twice and holds only sources that have been started and have not been
    stopped; every source the trace shows stopped had been started, and no
    source is stopped twice. *)
Theorem scheduled_sources_are_well_formed :
  forall (au : AudioUtils) (language : Types.Language) (events : list Event),
    let s := run au language initial events in
    NoDup (sourcesRef (refs s)) /\
    (forall x, In x (sourcesRef (refs s)) ->
       (exists t d, In (SourceStart x t d) (effects (world s))) /\
       ~ In (SourceStop x) (effects (world s))) /\
    (forall x, In (SourceStop x) (effects (world s)) ->
       exists t d, In (SourceStart x t d) (effects (world s))) /\
    NoDup (stoppedSources (effects (world s))).
Proof.
  intros au language events s.
  destruct (run_wellFormed au language events initial initial_wellFormed)
    as (H1 & H2 & H3 & H4 & H5 & H6).
  fold s in H1, H2, H3, H4, H5, H6.
  split; [exact H1|]. split; [|split; [exact H5 | exact H6]].
  intros x Hx. split; [exact (H4 x Hx)|].
  intros Hin. destruct (H3 x Hin) as [_ Hnot]. contradiction.
Qed.

Lemma scheduled_sources_are_well_formed_witness :
  let s := run Scenario.au Scenario.italian Scenario.speaking
             [Ended 1; SocketMessage 0 (Scenario.at_ 6) Interrupted] in
  sourcesRef (refs s) = [] /\
  stoppedSources (effects (world s)) = [0; 2]%nat /\
  NoDup (stoppedSources (effects (world s))).
Proof.
  intros s.
  split; [vm_compute; reflexivity|]. split; [vm_compute; reflexivity|].
  assert (E : s = run Scenario.au Scenario.italian initial
                    (Scenario.connect
                     ++ [SocketMessage 0 (Scenario.at_ 1) (AudioChunk "AAAAAAAAAAAAAAAA");
                         SocketMessage 0 (Scenario.at_ (10001 # 10000)) (AudioChunk "AAAAAAAA");
                         SocketMessage 0 (Scenario.at_ 5) (AudioChunk "AAAAAAAAAAAAAAAA")]
                     ++ [Ended 1; SocketMessage 0 (Scenario.at_ 6) Interrupted]))
    by (vm_compute; reflexivity).
  rewrite E.
  exact (proj2 (proj2 (proj2 (scheduled_sources_are_well_formed Scenario.au Scenario.italian _)))).
Defined.

(** A server message extends the trace by starts and stops of sources. *)
Lemma onmessage_trace (au : AudioUtils) (clock : Clock) (r : Render)
    (m : LiveServerMessage) (s : State) :
  exists added,
    effects (world (onmessage au clock r m s)) = effects (world s) ++ added /\
    Forall (fun e => isSourceEffect e = true) added.
Proof.
  assert (Hp : exists a,
             effects (world (fst (playAudio au clock m s))) = effects (world s) ++ a /\
             Forall (fun e => isSourceEffect e = true) a).
  { unfold playAudio.
    destruct (inlineData m) as [data|];
      [|exists []; rewrite app_nil_r; split; [reflexivity|constructor]].
    destruct (outputAudioContextRef (refs s));
      [|exists []; rewrite app_nil_r; split; [reflexivity|constructor]].
    destruct (JS.truthy data);
      [|exists []; rewrite app_nil_r; split; [reflexivity|constructor]].
    destruct (decodedDuration au data) as [d|]; simpl.
    - eexists [_]. split; [reflexivity|]. constructor; [reflexivity|constructor].
    - exists []. rewrite app_nil_r. split; [reflexivity|constructor]. }
  destruct Hp as (a & Ha & Hfa). unfold onmessage.
  destruct (playAudio au clock m s) as [s1 [|]]; simpl in Ha; [|exists a; auto].
  destruct (commitTurn_frame clock r m (handleTranscription m s1)) as [Hr Hw].
  destruct (handleTranscription_frame m s1) as (Hr' & Hw' & _).
  set (s2 := commitTurn clock r m (handleTranscription m s1)) in *.
  unfold handleInterrupted. destruct (interrupted m).
  - destruct (stopAll_fold (sourcesRef (refs s2)) s2) as (_ & _ & _ & _ & _ & He).
    fold (stopAll s2) in He.
    exists (a ++ map SourceStop (sourcesRef (refs s2))). split.
    + simpl. rewrite He, Hw, Hw', Ha, app_assoc. reflexivity.
    + apply Forall_app. split; [exact Hfa|].
      apply List.Forall_forall. intros e He'. apply in_map_iff in He' as (x & <- & _).
      reflexivity.
  - exists a. split; [rewrite Hw, Hw'; exact Ha | exact Hfa].
Qed.

Lemma step_never_closes (au : AudioUtils) (language : Types.Language) (s : State) (e : Event) :
  exists added,
    effects (world (step au language s e)) = effects (world s) ++ added /\
    Forall (fun e => isSessionClose e = false) added.
Proof.
  pose proof (quiet_step au language s e) as Hq.
  assert (Hquiet : quiet s (step au language s e) ->
                   exists added,
                     effects (world (step au language s e)) = effects (world s) ++ added /\
                     Forall (fun e => isSessionClose e = false) added).
  { intros (_ & _ & _ & added & Ha & Hb). exists added. split; [exact Ha|].
    eapply List.Forall_impl; [|exact Hb]. intros x [_ Hx]. exact Hx. }
  destruct e as [b|m|k|k clock msg|k|k|k ok|p d|src]; try (exact (Hquiet Hq)).
  - simpl. destruct (connections (world s) !! k) as [c|];
      [|exists []; rewrite app_nil_r; split; [reflexivity|constructor]].
    destruct (onmessage_trace au clock (callbacks c) msg s) as (added & Ha & Hb).
    exists added. split; [exact Ha|].
    eapply List.Forall_impl; [|exact Hb]. intros x Hx. destruct x; try discriminate; reflexivity.
  - exists []. rewrite app_nil_r. split; [reflexivity|constructor].
Qed.

(** X12.  Whatever the user, the browser and the remote end do, the component
    never asks for a session to be closed: not on teardown, not when it
    leaves the voice view, not when it connects again.  The trace only ever
    grows, so no call once made is taken back either. *)
Theorem session_is_never_closed :
  forall (au : AudioUtils) (language : Types.Language) (events more : list Event),
    let s := run au language initial events in
    let s' := run au language s more in
    (forall k, ~ In (SessionClose k) (effects (world s))) /\
    exists added, effects (world s') = effects (world s) ++ added.
Proof.
  assert (Hgrow : forall au language more s,
             exists added,
               effects (world (run au language s more)) = effects (world s) ++ added /\
               Forall (fun e => isSessionClose e = false) added).
  { intros au language more. unfold run.
    induction more as [|e more IH]; intros s; simpl.
    - exists []. rewrite app_nil_r. split; [reflexivity|constructor].
    - destruct (step_never_closes au language s e) as (a & Ha & Hb).
      destruct (IH (step au language s e)) as (a' & Ha' & Hb').
      exists (a ++ a'). split.
      + rewrite Ha', Ha, app_assoc. reflexivity.
      + apply Forall_app. split; assumption. }
  intros au language events more s s'. split.
  - intros k Hin.
    destruct (Hgrow au language events initial) as (added & Ha & Hb).
    fold s in Ha. rewrite Ha in Hin. simpl in Hin.
    rewrite List.Forall_forall in Hb. specialize (Hb _ Hin). discriminate.
  - destruct (Hgrow au language more s) as (added & Ha & _).
    exists added. exact Ha.
Qed.

Section Schedule.

Variable au : AudioUtils.

Hypothesis duration_nonneg :
  forall data d, decodedDuration au data = Some d -> (0 <= d)%Q.

Lemma scheduleSound_ext (s s' : State) :
  refs s' = refs s -> world s' = world s -> scheduleSound s -> scheduleSound s'.
Proof. unfold scheduleSound. intros -> ->. auto. Qed.

Lemma quiet_scheduleSound (s s' : State) :
  quiet s s' -> scheduleSound s -> scheduleSound s'.
Proof.
  intros (Hn & Hs & Hf & added & Ha & Hb) (K1 & K2 & K3).
  assert (Hno : forall x t d, ~ In (SourceStart x t d) added).
  { intros x t d Hin. rewrite List.Forall_forall in Hb.
    destruct (Hb _ Hin) as [Hsrc _]. discriminate. }
  unfold scheduleSound. rewrite Hn, Hs, Ha.
  split; [exact K1|]. split.
  - intros x t d Hin. apply in_app_or in Hin as [Hin|Hin]; [|exfalso; exact (Hno _ _ _ Hin)].
    destruct (K2 x t d Hin) as (Hlt & Ht & Hd). repeat split; try assumption. lia.
  - intros x t d Hx Hin.
    apply in_app_or in Hin as [Hin|Hin]; [|exfalso; exact (Hno _ _ _ Hin)].
    exact (K3 x t d Hx Hin).
Qed.

Lemma playAudio_scheduleSound (clock : Clock) (m : LiveServerMessage) (s : State) :
  scheduleSound s -> scheduleSound (fst (playAudio au clock m s)).
Proof.
  intros Hsound. unfold playAudio.
  destruct (inlineData m) as [data|]; [|exact Hsound].
  destruct (outputAudioContextRef (refs s)); [|exact Hsound].
  destruct (JS.truthy data); [|exact Hsound].
  destruct Hsound as (K1 & K2 & K3).
  pose proof (Q.le_max_l (nextStartTimeRef (refs s)) (currentTime clock)) as Hmax.
  set (t := Qmax (nextStartTimeRef (refs s)) (currentTime clock)) in *.
  destruct (decodedDuration au data) as [d|] eqn:Hd; simpl.
  - pose proof (duration_nonneg _ _ Hd) as Hd0.
    unfold scheduleSound. simpl. fold t.
    split; [lra|]. split.
    + intros x t0 d0 Hin. apply in_app_or in Hin as [Hin|[Hin|[]]].
      * destruct (K2 x t0 d0 Hin) as (Hlt & Ht & Hd'). repeat split; try assumption. lia.
      * injection Hin as <- <- <-. repeat split; [lia | lra | exact Hd0].
    + intros x t0 d0 Hx Hin.
      apply in_app_or in Hin as [Hin|[Hin|[]]].
      * apply in_app_or in Hx as [Hx|[<-|[]]].
        -- pose proof (K3 x t0 d0 Hx Hin). lra.
        -- destruct (K2 _ t0 d0 Hin) as (Hlt & _). lia.
      * injection Hin as <- <- <-. apply Qle_refl.
  - unfold scheduleSound. simpl. fold t.
    split; [lra|]. split; [exact K2|].
    intros x t0 d0 Hx Hin. pose proof (K3 x t0 d0 Hx Hin). lra.
Qed.

Lemma onmessage_scheduleSound (clock : Clock) (r : Render) (m : LiveServerMessage)
    (s : State) :
  scheduleSound s -> scheduleSound (onmessage au clock r m s).
Proof.
  intros Hsound. unfold onmessage.
  pose proof (playAudio_scheduleSound clock m s Hsound) as Hp.
  destruct (playAudio au clock m s) as [s1 [|]]; simpl in Hp; [|exact Hp].
  destruct (commitTurn_frame clock r m (handleTranscription m s1)) as [Hr Hw].
  destruct (handleTranscription_frame m s1) as (Hr' & Hw' & _).
  set (s2 := commitTurn clock r m (handleTranscription m s1)) in *.
  assert (H2 : scheduleSound s2).
  { apply (scheduleSound_ext s1); [congruence | congruence | exact Hp]. }
  unfold handleInterrupted. destruct (interrupted m); [|exact H2].
  destruct H2 as (K1 & K2 & K3).
  destruct (stopAll_fold (sourcesRef (refs s2)) s2) as (_ & _ & _ & _ & Hf & He).
  fold (stopAll s2) in Hf, He.
  unfold scheduleSound. simpl. rewrite Hf, He.
  split; [apply Qle_refl|]. split; [|intros x t d []].
  intros x t d Hin. apply in_app_or in Hin as [Hin|Hin]; [exact (K2 x t d Hin)|].
  apply in_map_iff in Hin as (y & Hy & _). discriminate.
Qed.

Lemma step_scheduleSound (language : Types.Language) (s : State) (e : Event) :
  scheduleSound s -> scheduleSound (step au language s e).
Proof.
  intros Hsound. pose proof (quiet_step au language s e) as Hq.
  destruct e as [b|m|k|k clock msg|k|k|k ok|p d|src];
    try (exact (quiet_scheduleSound _ _ Hq Hsound)).
  - simpl. destruct (connections (world s) !! k); [|exact Hsound].
    now apply onmessage_scheduleSound.
  - simpl. destruct Hsound as (K1 & K2 & K3). unfold scheduleSound, onended. simpl.
    split; [exact K1|]. split; [exact K2|].
    intros x t d Hx Hin. apply List.filter_In in Hx as [Hx _]. exact (K3 x t d Hx Hin).
Qed.

(** X13.  With durations that are not negative, in every state the component can
    reach the cursor is not negative, no source has been started at a
    negative time, and every source still in the set ends at or before the
    cursor.  So the chunk scheduled next, which starts at the later of the
    cursor and the clock, starts at or after the end of every chunk that
    is still scheduled, across interruptions, ended sources, reconnections
    and teardown alike. *)
Theorem schedule_is_sound :
  forall (language : Types.Language) (events : list Event),
    let s := run au language initial events in
    (0 <= nextStartTimeRef (refs s))%Q /\
    (forall x t d, In (SourceStart x t d) (effects (world s)) -> (0 <= t)%Q /\ (0 <= d)%Q) /\
    (forall x t d clock,
       In x (sourcesRef (refs s)) ->
       In (SourceStart x t d) (effects (world s)) ->
       (t + d <= nextStartTimeRef (refs s))%Q /\
       (t + d <= Qmax (nextStartTimeRef (refs s)) (currentTime clock))%Q).
Proof.
  intros language events s.
  assert (Hsound : scheduleSound s).
  { unfold s, run.
    assert (H0 : scheduleSound initial).
    { unfold scheduleSound; simpl. split; [apply Qle_refl|].
      split; [intros x t d []|intros x t d []]. }
    revert H0. generalize initial. induction events as [|e events IH]; intros s0 H0.
    - exact H0.
    - simpl. apply IH. now apply step_scheduleSound. }
  destruct Hsound as (K1 & K2 & K3).
  split; [exact K1|]. split.
  - intros x t d Hin. destruct (K2 x t d Hin) as (_ & Ht & Hd). split; assumption.
  - intros x t d clock Hx Hin. pose proof (K3 x t d Hx Hin) as Hend.
    split; [exact Hend|].
    pose proof (Q.le_max_l (nextStartTimeRef (refs s)) (currentTime clock)). lra.
Qed.

End Schedule.

Lemma schedule_is_sound_witness :
  let s := run Scenario.au Scenario.italian initial
             (Scenario.connect
              ++ [SocketMessage 0 (Scenario.at_ 1) (AudioChunk "AAAAAAAAAAAAAAAA");
                  SocketMessage 0 (Scenario.at_ (10001 # 10000)) (AudioChunk "AAAAAAAA")]) in
  sourcesRef (refs s) = [0; 1]%nat /\
  (0 <= nextStartTimeRef (refs s))%Q /\
  forall t d,
    In (SourceStart 1 t d) (effects (world s)) -> (t + d <= nextStartTimeRef (refs s))%Q.
Proof.
  intros s.
  destruct (schedule_is_sound Scenario.au scenario_duration_nonneg Scenario.italian
              (Scenario.connect
               ++ [SocketMessage 0 (Scenario.at_ 1) (AudioChunk "AAAAAAAAAAAAAAAA");
                   SocketMessage 0 (Scenario.at_ (10001 # 10000)) (AudioChunk "AAAAAAAA")]))
    as (H1 & _ & H3).
  fold s in H1, H3.
  assert (Hs : sourcesRef (refs s) = [0; 1]%nat) by (vm_compute; reflexivity).
  split; [exact Hs|]. split; [exact H1|].
  intros t d Hin.
  apply (H3 1%nat t d (Scenario.at_ 0)); [|exact Hin].
  rewrite Hs. simpl. auto.
Defined.

(** ** The text chat (src/components/LiveTutor.tsx) *)

(** The reply bubble is never empty: an absent or empty response text and a
    failed request each have their own fixed text. *)
Lemma replyText_truthy (reply : Chat.Reply) : JS.truthy (Chat.replyText reply) = true.
Proof.
  destruct reply as [[t|]|]; simpl; try reflexivity.
  destruct (JS.truthy t) eqn:E; [exact E | reflexivity].
Qed.

(** X14.  Sending a text that is not blank, with a chat session at hand, hands the
    text as typed to that session, clears the input field, and appends
    exactly two messages to the log: the user's, with the text as typed,
    then the tutor's, whose text is never empty; the typing indicator is on
    while the request is in flight and off afterwards, whether the request
    succeeded or not. *)
Theorem chat_exchange_appends_question_and_reply :
  forall (sentAt repliedAt : Z) (reply : Chat.Reply) (c : Chat.State) (session : nat),
    JS.truthy (JS.trim (Chat.inputText c)) = true ->
    Chat.chatSessionRef c = Some session ->
    let c1 := fst (Chat.beginSend sentAt c) in
    let c2 := Chat.handleSendMessage sentAt repliedAt reply c in
    Chat.isTyping c1 = true /\
    Chat.messages c2 =
      Chat.messages c
      ++ [ {| id := Chat.dateString sentAt; role := user; text := Chat.inputText c |};
           {| id := Chat.replyId repliedAt reply; role := model;
              text := Chat.replyText reply |} ] /\
    JS.truthy (Chat.replyText reply) = true /\
    Chat.outbox c2 = Chat.outbox c ++ [(session, Chat.inputText c)] /\
    Chat.inputText c2 = "" /\
    Chat.isTyping c2 = false /\
    Chat.chatSessionRef c2 = Some session.
Proof.
  intros sentAt repliedAt reply c session Ht Hs c1 c2.
  unfold c2, c1, Chat.handleSendMessage, Chat.beginSend. rewrite Ht, Hs. simpl.
  rewrite <- app_assoc. repeat split. apply replyText_truthy.
Qed.

Lemma chat_exchange_appends_question_and_reply_witness :
  let c := Chat.setInputText " Ciao! "
             (Chat.enterChatEffect chat Scenario.italian Chat.initial) in
  let c2 := Chat.handleSendMessage 1700000000000 1700000000900 (Chat.Answered (Some "")) c in
  map text (Chat.messages c2) =
    map text (Chat.messages c) ++ [" Ciao! "; "Não entendi, pode repetir?"] /\
  Chat.outbox c2 = [(0%nat, " Ciao! ")] /\
  Chat.isTyping c2 = false.
Proof.
  intros c c2.
  destruct (chat_exchange_appends_question_and_reply
              1700000000000 1700000000900 (Chat.Answered (Some "")) c 0%nat
              eq_refl eq_refl)
    as (_ & Hm & _ & Ho & _ & Hty & _).
  fold c2 in Hm, Ho, Hty.
  split; [rewrite Hm; rewrite map_app; reflexivity|].
  split; [exact Ho | exact Hty].
Defined.

(** X15.  Nothing is sent, and nothing changes, when the input is empty or only
    white space, when there is no chat session, or when the key pressed in
    the input field is not Enter alone. *)
Theorem blank_input_is_not_sent :
  forall (sentAt repliedAt : Z) (reply : Chat.Reply) (c : Chat.State),
    (JS.truthy (JS.trim (Chat.inputText c)) = false \/ Chat.chatSessionRef c = None ->
     Chat.handleSendMessage sentAt repliedAt reply c = c /\
     Chat.handleKeyPress "Enter" false sentAt c = (c, false)) /\
    (forall key shiftKey,
       key <> "Enter" \/ shiftKey = true ->
       Chat.handleKeyPress key shiftKey sentAt c = (c, false)).
Proof.
  intros sentAt repliedAt reply c. split.
  - intros H.
    assert (E : Chat.beginSend sentAt c = (c, false)).
    { unfold Chat.beginSend. destruct H as [-> | H]; [reflexivity|].
      rewrite H. destruct (negb (JS.truthy (JS.trim (Chat.inputText c)))); reflexivity. }
    unfold Chat.handleSendMessage, Chat.handleKeyPress. rewrite E. simpl. auto.
  - intros key shiftKey [Hk | ->]; unfold Chat.handleKeyPress.
    + apply String.eqb_neq in Hk. rewrite Hk. reflexivity.
    + rewrite andb_false_r. reflexivity.
Qed.

Lemma blank_input_is_not_sent_witness :
  let c := Chat.setInputText "   "
             (Chat.enterChatEffect chat Scenario.italian Chat.initial) in
  let c' := Chat.setInputText
              (Scenario.noBreakSpace ++ Scenario.ideographicSpace ++ Scenario.byteOrderMark)%string
              c in
  Chat.handleSendMessage 1 2 Chat.Failed c = c /\
  Chat.handleSendMessage 1 2 Chat.Failed c' = c' /\
  Chat.handleKeyPress "Enter" true 1 (Chat.setInputText "Ciao" c)
    = (Chat.setInputText "Ciao" c, false).
Proof.
  intros c c'.
  destruct (blank_input_is_not_sent 1 2 Chat.Failed c) as [H1 _].
  destruct (blank_input_is_not_sent 1 2 Chat.Failed c') as [H1' _].
  destruct (blank_input_is_not_sent 1 2 Chat.Failed (Chat.setInputText "Ciao" c)) as [_ H2].
  split; [|split].
  - exact (proj1 (H1 (or_introl eq_refl))).
  - exact (proj1 (H1' (or_introl eq_refl))).
  - exact (H2 "Enter" true (or_intror eq_refl)).
Defined.

Lemma chat_step_keeps_log (language : Types.Language) (c : Chat.State) (e : Chat.Event) :
  Chat.messages c <> [] ->
  (exists more, Chat.messages (Chat.step language c e) = Chat.messages c ++ more) /\
  Chat.chatSessionRef (Chat.step language c e) = Chat.chatSessionRef c /\
  Chat.created (Chat.step language c e) = Chat.created c.
Proof.
  intros Hne.
  assert (Hsend : forall t (c0 : Chat.State),
             (exists more, Chat.messages (fst (Chat.beginSend t c0))
                           = Chat.messages c0 ++ more) /\
             Chat.chatSessionRef (fst (Chat.beginSend t c0)) = Chat.chatSessionRef c0 /\
             Chat.created (fst (Chat.beginSend t c0)) = Chat.created c0).
  { intros t c0. unfold Chat.beginSend.
    destruct (negb (JS.truthy (JS.trim (Chat.inputText c0)))).
    - simpl. split; [exists []; now rewrite app_nil_r | split; congruence].
    - destruct (Chat.chatSessionRef c0) eqn:E; simpl.
      + split; [eexists; reflexivity | split; congruence].
      + split; [exists []; now rewrite app_nil_r | split; congruence]. }
  destruct e as [m|t|t1 t2 reply|key shift t1 t2 reply]; simpl.
  - unfold Chat.enterChatEffect. destruct m.
    + destruct (Chat.messages c) as [|x l] eqn:E; [contradiction|]. simpl.
      rewrite E. split; [exists []; now rewrite app_nil_r | split; congruence].
    + split; [exists []; now rewrite app_nil_r | split; congruence].
  - split; [exists []; now rewrite app_nil_r | split; congruence].
  - unfold Chat.handleSendMessage.
    destruct (Hsend t1 c) as ((more & Hm) & Hs & Hc).
    destruct (Chat.beginSend t1 c) as [c1 [|]]; simpl in *.
    + rewrite Hm, <- app_assoc. split; [eexists; reflexivity | split; congruence].
    + split; [exists more; exact Hm | split; congruence].
  - unfold Chat.handleKeyPress.
    destruct ((key =? "Enter")%string && negb shift).
    + destruct (Hsend t1 c) as ((more & Hm) & Hs & Hc).
      destruct (Chat.beginSend t1 c) as [c1 [|]]; simpl in *.
      * rewrite Hm, <- app_assoc. split; [eexists; reflexivity | split; congruence].
      * split; [exists more; exact Hm | split; congruence].
    + split; [exists []; now rewrite app_nil_r | split; congruence].
Qed.

(** X16.  Entering the chat view with an empty log creates the chat session and
    puts the tutor's greeting in the log.  From then on, whatever the user
    does (typing, sending, pressing keys, going to the voice view and
    back), the log only grows and the session stays the same: the
    conversation is never reset and no second chat session is created. *)
Theorem chat_is_initialised_once :
  forall (language : Types.Language) (events : list Chat.Event),
    let c0 := Chat.enterChatEffect chat language Chat.initial in
    let c := Chat.run language c0 events in
    Chat.chatSessionRef c0 = Some 0%nat /\
    map text (Chat.messages c0) =
      [("Olá! Sou seu professor de " ++ Types.nativeName language
        ++ ". Vamos praticar a escrita?")%string] /\
    (exists more, Chat.messages c = Chat.messages c0 ++ more) /\
    Chat.chatSessionRef c = Some 0%nat /\
    Chat.created c = 1%nat /\
    Chat.enterChatEffect chat language c = c.
Proof.
  intros language events c0 c.
  assert (H : forall evs (c1 : Chat.State),
             Chat.messages c1 <> [] ->
             (exists more, Chat.messages (Chat.run language c1 evs)
                           = Chat.messages c1 ++ more) /\
             Chat.chatSessionRef (Chat.run language c1 evs) = Chat.chatSessionRef c1 /\
             Chat.created (Chat.run language c1 evs) = Chat.created c1).
  { unfold Chat.run. induction evs as [|e evs IH]; intros c1 Hne; simpl.
    - split; [exists []; now rewrite app_nil_r | split; reflexivity].
    - destruct (chat_step_keeps_log language c1 e Hne) as ((m1 & Hm1) & Hs1 & Hc1).
      assert (Hne' : Chat.messages (Chat.step language c1 e) <> []).
      { rewrite Hm1. destruct (Chat.messages c1); [contradiction|discriminate]. }
      destruct (IH _ Hne') as ((m2 & Hm2) & Hs2 & Hc2).
      split; [|split; congruence].
      exists (m1 ++ m2). rewrite Hm2, Hm1, app_assoc. reflexivity. }
  assert (Hne0 : Chat.messages c0 <> []) by discriminate.
  destruct (H events c0 Hne0) as ((more & Hm) & Hs & Hc).
  fold c in Hm, Hs, Hc.
  split; [reflexivity|]. split; [reflexivity|].
  split; [exists more; exact Hm|]. split; [exact Hs|]. split; [exact Hc|].
  unfold Chat.enterChatEffect. rewrite Hm. reflexivity.
Qed.

Lemma speaking_indicator_after_message_witness :
  let s' := onmessage Scenario.au (Scenario.at_ 1) Scenario.firstRender
              (OutputTranscriptDelta "Ciao") Scenario.listening in
  isAiSpeaking s' = true /\ mainButtonLabel s' = "Ouvindo IA...".
Proof.
  intros s'.
  assert (E : isAiSpeaking s' = true) by (vm_compute; reflexivity).
  split; [exact E|].
  exact (proj2 (speaking_indicator_after_message Scenario.au (Scenario.at_ 1)
                  Scenario.firstRender (OutputTranscriptDelta "Ciao") Scenario.listening) E).
Defined.

Lemma ended_source_is_not_stopped_witness :
  let s1 := onended 1 Scenario.speaking in
  let s2 := onmessage Scenario.au (Scenario.at_ 6) Scenario.firstRender Interrupted s1 in
  ~ In 1%nat (sourcesRef (refs s1)) /\
  (In 2%nat (sourcesRef (refs s1)) <-> In 2%nat (sourcesRef (refs Scenario.speaking))) /\
  onended 7 Scenario.speaking = Scenario.speaking.
Proof.
  intros s1 s2.
  destruct (ended_source_is_not_stopped Scenario.au (Scenario.at_ 6) Scenario.firstRender
              1%nat Scenario.speaking) as (H1 & H2 & _).
  destruct (ended_source_is_not_stopped Scenario.au (Scenario.at_ 6) Scenario.firstRender
              7%nat Scenario.speaking) as (_ & _ & H3 & _).
  split; [exact H1|]. split; [apply H2; discriminate|].
  apply H3. vm_compute. intros [H|[H|[H|[]]]]; discriminate H.
Defined.

(** ** Unmounting *)

(** X17.  When the component is unmounted, its cleanup makes the same outgoing
    calls as teardown: it stops the tracks of the stream held and closes
    the contexts held.  After a teardown the contexts are forgotten, so a
    cleanup that follows closes no context a second time; it only stops the
    tracks of the same stream once more. *)
Theorem unmount_releases_like_teardown :
  forall s : State,
    world (unmountCleanup s) = world (disconnectVoice s) /\
    hooks (unmountCleanup s) = hooks s /\
    refs (unmountCleanup s) = refs s /\
    effects (world (unmountCleanup (disconnectVoice s))) =
      effects (world (disconnectVoice s))
      ++ map TrackStop (option_list (streamRef (refs s))) /\
    processors (world (unmountCleanup s)) =
      match inputAudioContextRef (refs s) with
      | Some _ => []
      | None => processors (world s)
      end.
Proof.
  intros [h [i o n srcs l p st c] [cs ps f es]].
  destruct st as [stream|], i as [ci|], o as [co|];
    (cbv -[app]; rewrite <- ?app_assoc, ?app_nil_r; repeat split).
Qed.

(** ** The guard of [connectToLive] (src/components/LiveTutor.tsx) *)























